(** * wiki_escalation: a shallow embedding of scrape_drn.py and fetch_talkpages.py

    Python [str] values are modelled as lists of Unicode code points
    ([pystr]); string literals below are written with [lit], which reads an
    ASCII Rocq string as its code points.  Network responses come from
    oracles indexed by the running request counter, so every behaviour of
    an unreliable remote service is covered. *)

From Stdlib Require Import String Ascii.
From Stdlib Require Import List Arith Lia Bool ZArith Sorting.Sorted.
Import ListNotations.
#[local] Set Warnings "-abstract-large-number".

(* ================================================================= *)
(** ** Python strings *)

Definition pystr := list nat.

Definition lit (x : string) : pystr := map nat_of_ascii (list_ascii_of_string x).

Fixpoint startswith (p s : pystr) : bool :=
  match p, s with
  | [], _ => true
  | _ :: _, [] => false
  | a :: p', b :: s' => (a =? b) && startswith p' s'
  end.

Definition str_eqb (a b : pystr) : bool :=
  if list_eq_dec Nat.eq_dec a b then true else false.

Definition contains_ch (c : nat) (s : pystr) : bool := existsb (Nat.eqb c) s.

(** [s.split(c, 1)] when [c in s]: the text before and after the first [c]. *)
Fixpoint split_first (c : nat) (s : pystr) : option (pystr * pystr) :=
  match s with
  | [] => None
  | x :: s' =>
      if x =? c then Some ([], s')
      else match split_first c s' with
           | Some (a, b) => Some (x :: a, b)
           | None => None
           end
  end.

(** [s.split(c)] for a one-character separator: never empty. *)
Fixpoint split_all (c : nat) (s : pystr) : list pystr :=
  match s with
  | [] => [[]]
  | x :: s' =>
      if x =? c then [] :: split_all c s'
      else match split_all c s' with
           | a :: rest => (x :: a) :: rest
           | [] => [[x]]
           end
  end.

(** ['c'.join(parts)] *)
Fixpoint join (c : nat) (parts : list pystr) : pystr :=
  match parts with
  | [] => []
  | [p] => p
  | p :: ps => p ++ c :: join c ps
  end.

(** [s.replace(pat, rep)]: every non-overlapping occurrence, left to right;
    an empty pattern inserts [rep] around every character. *)
Fixpoint replace_fuel (fuel : nat) (pat rep s : pystr) : pystr :=
  match fuel with
  | 0 => s
  | S f =>
      match s with
      | [] => []
      | c :: s' =>
          if startswith pat s then rep ++ replace_fuel f pat rep (skipn (length pat) s)
          else c :: replace_fuel f pat rep s'
      end
  end.

Definition replace (pat rep s : pystr) : pystr :=
  match pat with
  | [] => rep ++ flat_map (fun c => c :: rep) s
  | _ => replace_fuel (length s) pat rep s
  end.

(** Python's [str] ordering: code points, lexicographically. *)
Fixpoint str_compare (a b : pystr) : comparison :=
  match a, b with
  | [], [] => Eq
  | [], _ :: _ => Lt
  | _ :: _, [] => Gt
  | x :: a', y :: b' =>
      match Nat.compare x y with
      | Eq => str_compare a' b'
      | c => c
      end
  end.

Definition str_lt (a b : pystr) : Prop := str_compare a b = Lt.

(* ================================================================= *)
(** ** [urllib.parse.unquote] *)

Definition hex_val (c : nat) : option nat :=
  if (48 <=? c) && (c <=? 57) then Some (c - 48)
  else if (65 <=? c) && (c <=? 70) then Some (c - 55)
  else if (97 <=? c) && (c <=? 102) then Some (c - 87)
  else None.

(** [unquote_to_bytes] on an ASCII run: [%XX] with two hex digits is a
    byte, any other [%] stays literal. *)
Fixpoint unquote_to_bytes (s : pystr) : list nat :=
  match s with
  | [] => []
  | c :: rest =>
      if c =? 37 then
        match rest with
        | a :: b :: rest' =>
            match hex_val a, hex_val b with
            | Some x, Some y => (16 * x + y) :: unquote_to_bytes rest'
            | _, _ => 37 :: unquote_to_bytes rest
            end
        | _ => 37 :: unquote_to_bytes rest
        end
      else c :: unquote_to_bytes rest
  end.

Definition in_range (lo hi b : nat) : bool := (lo <=? b) && (b <=? hi).
Definition is_cont (b : nat) : bool := in_range 128 191 b.
Definition REPLACEMENT : nat := 65533.

(** [bytes.decode("utf-8", "replace")]: each maximal ill-formed subpart
    becomes one U+FFFD. *)
Fixpoint utf8_decode_fuel (fuel : nat) (bs : list nat) : pystr :=
  match fuel with
  | 0 => []
  | S f =>
  match bs with
  | [] => []
  | b0 :: r0 =>
      if b0 <? 128 then b0 :: utf8_decode_fuel f r0
      else
        (* the accepted range of the second byte, and the number of bytes *)
        let lead :=
          if in_range 194 223 b0 then Some (128, 191, 2)
          else if b0 =? 224 then Some (160, 191, 3)
          else if in_range 225 236 b0 then Some (128, 191, 3)
          else if b0 =? 237 then Some (128, 159, 3)
          else if in_range 238 239 b0 then Some (128, 191, 3)
          else if b0 =? 240 then Some (144, 191, 4)
          else if in_range 241 243 b0 then Some (128, 191, 4)
          else if b0 =? 244 then Some (128, 143, 4)
          else None in
        match lead with
        | None => REPLACEMENT :: utf8_decode_fuel f r0
        | Some (lo, hi, n) =>
            match r0 with
            | b1 :: r1 =>
                if in_range lo hi b1 then
                  if n =? 2 then
                    (64 * (b0 - 192) + (b1 - 128)) :: utf8_decode_fuel f r1
                  else
                    match r1 with
                    | b2 :: r2 =>
                        if is_cont b2 then
                          if n =? 3 then
                            (4096 * (b0 - 224) + 64 * (b1 - 128) + (b2 - 128))
                              :: utf8_decode_fuel f r2
                          else
                            match r2 with
                            | b3 :: r3 =>
                                if is_cont b3 then
                                  (262144 * (b0 - 240) + 4096 * (b1 - 128)
                                   + 64 * (b2 - 128) + (b3 - 128))
                                    :: utf8_decode_fuel f r3
                                else REPLACEMENT :: utf8_decode_fuel f r2
                            | [] => [REPLACEMENT]
                            end
                        else REPLACEMENT :: utf8_decode_fuel f r1
                    | [] => [REPLACEMENT]
                    end
                else REPLACEMENT :: utf8_decode_fuel f r0
            | [] => [REPLACEMENT]
            end
        end
  end
  end.

Definition utf8_decode (bs : list nat) : pystr := utf8_decode_fuel (length bs) bs.

(** [_asciire.split]: alternating runs; ASCII runs are percent-decoded,
    non-ASCII characters are kept. *)
Fixpoint take_ascii (s : pystr) : pystr * pystr :=
  match s with
  | c :: s' => if c <? 128 then let '(a, r) := take_ascii s' in (c :: a, r) else ([], s)
  | [] => ([], [])
  end.

Fixpoint unquote_runs (fuel : nat) (s : pystr) : pystr :=
  match fuel with
  | 0 => []
  | S f =>
      match s with
      | [] => []
      | c :: s' =>
          if c <? 128 then
            let '(run, rest) := take_ascii s in
            utf8_decode (unquote_to_bytes run) ++ unquote_runs f rest
          else c :: unquote_runs f s'
      end
  end.

Definition unquote (s : pystr) : pystr :=
  if negb (contains_ch 37 s) then s
  else unquote_runs (length s) s.

(* ================================================================= *)
(** ** [urllib.parse.urljoin(WIKI_BASE, href)] *)

Definition WIKI_BASE : pystr := lit "https://en.wikipedia.org".
Definition WIKI_NETLOC : pystr := lit "en.wikipedia.org".

(** [url.lstrip(_WHATWG_C0_CONTROL_OR_SPACE)] *)
Fixpoint lstrip_c0 (s : pystr) : pystr :=
  match s with
  | c :: s' => if c <=? 32 then lstrip_c0 s' else s
  | [] => []
  end.

(** [_UNSAFE_URL_BYTES_TO_REMOVE]: tab, LF and CR removed everywhere. *)
Definition remove_unsafe (s : pystr) : pystr :=
  filter (fun c => negb ((c =? 9) || (c =? 10) || (c =? 13))) s.

(** [_splitparams]: the parameters of the last path segment. *)
Definition last_slash_pos (s : pystr) : option nat :=
  fold_left (fun acc '(i, c) => if c =? 47 then Some i else acc)
            (combine (seq 0 (length s)) s) None.

Fixpoint find_from (c : nat) (i : nat) (s : pystr) : option nat :=
  match s with
  | [] => None
  | x :: s' => if x =? c then Some i else find_from c (S i) s'
  end.

Definition splitparams (path : pystr) : pystr * pystr :=
  match last_slash_pos path with
  | Some j =>
      match find_from 59 j (skipn j path) with
      | Some i => (firstn i path, skipn (S i) path)
      | None => (path, [])
      end
  | None =>
      match find_from 59 0 path with
      | Some i => (firstn i path, skipn (S i) path)
      | None => (path, [])
      end
  end.

(** The dot-segment loop of [urljoin]. *)
Fixpoint resolve_segments (acc : list pystr) (segs : list pystr) : list pystr :=
  match segs with
  | [] => acc
  | seg :: rest =>
      if str_eqb seg (lit "..") then
        resolve_segments (removelast acc) rest
      else if str_eqb seg (lit ".") then resolve_segments acc rest
      else resolve_segments (acc ++ [seg]) rest
  end.

Definition last_seg (segs : list pystr) : pystr := last segs [].

(** [urljoin(WIKI_BASE, href)] on the branch the extractor reaches: [href]
    starts with ["/wiki/"], so after [urlsplit] it has no scheme (so the
    base's [https] is used) and no netloc (so the base's is used), and its
    path is absolute; [urlsplit] first strips leading C0/space characters
    and removes tab, LF and CR, then splits off the fragment at the first
    ['#'] and the query at the first ['?']; [urlparse] splits the params of
    the last segment at [';'].  The base path is empty, and the path's
    segments are resolved; [urlunsplit] re-assembles the result and drops
    an empty query or fragment. *)
Definition urljoin_wiki (href : pystr) : pystr :=
  let u0 := remove_unsafe (lstrip_c0 href) in
  let '(u1, frag) := match split_first 35 u0 with
                     | Some (a, b) => (a, b)
                     | None => (u0, [])
                     end in
  let '(u2, query) := match split_first 63 u1 with
                      | Some (a, b) => (a, b)
                      | None => (u1, [])
                      end in
  let '(path, params) := if contains_ch 59 u2 then splitparams u2 else (u2, []) in
  let segments := split_all 47 path in
  let resolved := resolve_segments [] segments in
  let resolved :=
    if str_eqb (last_seg segments) (lit ".") || str_eqb (last_seg segments) (lit "..")
    then resolved ++ [[]] else resolved in
  let p := match join 47 resolved with [] => lit "/" | p => p end in
  let p := match params with [] => p | _ => p ++ 59 :: params end in
  let p := if startswith (lit "/") p then p else 47 :: p in
  let url := lit "https:" ++ lit "//" ++ WIKI_NETLOC ++ p in
  let url := match query with [] => url | _ => url ++ 63 :: query end in
  match frag with [] => url | _ => url ++ 35 :: frag end.

(* ================================================================= *)
(** ** [extract_talk_links_from_html] *)

(** A parsed page, as [soup.find_all("a")] sees it: the [href] attribute
    of each anchor element, in document order ([None]: no [href]). *)
Definition doc := list (option pystr).

Definition hrefs (d : doc) : list pystr :=
  flat_map (fun a => match a with Some h => [h] | None => [] end) d.

Definition TALK_PREFIX : pystr := lit "/wiki/Talk:".

(** [sorted(set(xs))]: distinct strings in ascending order. *)
Fixpoint insert_uniq (x : pystr) (l : list pystr) : list pystr :=
  match l with
  | [] => [x]
  | y :: l' =>
      match str_compare x y with
      | Lt => x :: l
      | Eq => l
      | Gt => y :: insert_uniq x l'
      end
  end.

Definition sorted_set (xs : list pystr) : list pystr := fold_right insert_uniq [] xs.

Definition extract_talk_links_from_html (html : doc) : list pystr :=
  sorted_set (map urljoin_wiki (filter (startswith TALK_PREFIX) (hrefs html))).

(* ================================================================= *)
(** ** Effects: the remote services, sleeping and logging *)

(** One response of the MediaWiki API ([action=query&prop=revisions]), as
    the fetchers read it. *)
Inductive api_resp :=
| ApiFail                 (** [session.get] raised, [raise_for_status] raised
                              on a non-2xx status, or [r.json()] / indexing raised *)
| ApiNoPages              (** [query.pages] absent or empty *)
| ApiMissing              (** [pages[0]] carries ["missing"] *)
| ApiNoRevs               (** [revisions] absent or empty *)
| ApiRev (content : option pystr) (ts : option pystr).
                          (** [revs[0]] with its [slots.main.content] and [timestamp] *)

Inductive level := INFO | WARN | ERROR.

Inductive event :=
| EHtml (url : pystr)     (** one [session.get] of a wiki page *)
| EApi (title : pystr)    (** one [session.get] of the API for a title *)
| ESleep (secs : nat)     (** [time.sleep] *)
| ELog (lvl : level).     (** one [print] *)

(** The world a run sees: the two remote services, answering the [n]-th
    request of the run for a target ([None]: the page request raised), the
    number of requests made so far, and the events so far, oldest first. *)
Record world := mkWorld {
  html_at : nat -> pystr -> option doc;
  api_at : nat -> pystr -> api_resp;
  ncalls : nat;
  trace : list event
}.

Inductive exn :=
| RuntimeError (url : pystr)   (** [get_html] gave up *)
| RequestError.                (** an exception of [requests] *)

Definition M (A : Type) : Type := world -> (A + exn) * world.

Definition ret {A} (a : A) : M A := fun w => (inl a, w).

Definition bind {A B} (m : M A) (k : A -> M B) : M B :=
  fun w => match m w with
           | (inl a, w') => k a w'
           | (inr e, w') => (inr e, w')
           end.

Notation "x <- m ;; k" := (bind m (fun x => k))
  (at level 61, m at next level, right associativity).
Notation "m ;;; k" := (bind m (fun _ => k))
  (at level 61, right associativity).

Definition raise {A} (e : exn) : M A := fun w => (inr e, w).

(** [try: m except Exception: h] *)
Definition try_catch {A} (m : M A) (h : exn -> M A) : M A :=
  fun w => match m w with
           | (inr e, w') => h e w'
           | r => r
           end.

Definition add_event (e : event) (w : world) : world :=
  mkWorld (html_at w) (api_at w) (ncalls w) (trace w ++ [e]).

Definition emit (e : event) : M unit := fun w => (inl tt, add_event e w).

Definition sleep (secs : nat) : M unit := emit (ESleep secs).
Definition log (l : level) : M unit := emit (ELog l).

Definition next_call (e : event) (w : world) : world :=
  mkWorld (html_at w) (api_at w) (S (ncalls w)) (trace w ++ [e]).

(** [session.get(url, headers=headers, timeout=30)] of a wiki page. *)
Definition html_get (url : pystr) : M (option doc) :=
  fun w => (inl (html_at w (ncalls w) url), next_call (EHtml url) w).

(** [session.get(API_ENDPOINT, params=...)] for one title. *)
Definition api_get (title : pystr) : M api_resp :=
  fun w => (inl (api_at w (ncalls w) title), next_call (EApi title) w).

Record page_data := mkPage { wikitext : pystr; timestamp : option pystr }.

(* the fields, under names the modules below do not shadow *)
Definition data_wikitext (d : page_data) : pystr := wikitext d.
Definition data_timestamp (d : page_data) : option pystr := timestamp d.

(** The body of both [fetch_wikitext_via_api]s after the request:
    [None] when the attempt raised, [Some None] for an absent page. *)
Definition parse_api (r : api_resp) : option (option page_data) :=
  match r with
  | ApiFail => None
  | ApiNoPages | ApiMissing | ApiNoRevs => Some None
  | ApiRev c ts => Some (Some (mkPage (match c with Some t => t | None => [] end) ts))
  end.

Definition SLEEP_SECONDS : nat := 1.

(** [talk_links[:limit]] for an [int] limit. *)
Definition py_slice_to {A} (xs : list A) (limit : Z) : list A :=
  if (0 <=? limit)%Z then firstn (Z.to_nat limit) xs
  else firstn (Z.to_nat (Z.of_nat (length xs) + limit)) xs.

(* ================================================================= *)
(** ** scrape_drn.py *)

Module ScrapeDrn.

(** [safe_filename(s)]: [re.sub(r"[^\w\s-]", "", s)], then
    [re.sub(r"\s+", "_", s).strip("_")], then [s[:240]].  The character
    classes of [re] on [str] patterns are Unicode: [\w] is [str.isalnum()]
    or ['_'], [\s] is Unicode whitespace; both are kept abstract here. *)
Section SafeFilename.

Variable is_alnum : nat -> bool.
Variable is_space : nat -> bool.

Definition is_word (c : nat) : bool := is_alnum c || (c =? 95).

Definition keep_char (c : nat) : bool := is_word c || is_space c || (c =? 45).

(** [re.sub(r"\s+", "_", s)]; [in_run]: the previous character was
    whitespace. *)
Fixpoint sub_spaces (in_run : bool) (s : pystr) : pystr :=
  match s with
  | [] => []
  | c :: s' =>
      if is_space c then
        if in_run then sub_spaces true s' else 95 :: sub_spaces true s'
      else c :: sub_spaces false s'
  end.

Fixpoint lstrip_ch (ch : nat) (s : pystr) : pystr :=
  match s with
  | c :: s' => if c =? ch then lstrip_ch ch s' else s
  | [] => []
  end.

Definition strip_ch (ch : nat) (s : pystr) : pystr := rev (lstrip_ch ch (rev (lstrip_ch ch s))).

Definition safe_filename (s : pystr) : pystr :=
  let s := filter keep_char s in
  let s := strip_ch 95 (sub_spaces false s) in
  firstn 240 s.

End SafeFilename.


(** [get_html(url, session, retries)] *)
Fixpoint get_html_attempts (url : pystr) (attempt fuel : nat) : M doc :=
  match fuel with
  | 0 => raise (RuntimeError url)
  | S f =>
      r <- html_get url ;;
      match r with
      | Some d => ret d
      | None =>
          log WARN ;;;
          sleep (2 * (attempt + 1)) ;;;
          get_html_attempts url (S attempt) f
      end
  end.

Definition get_html_r (url : pystr) (retries : nat) : M doc := get_html_attempts url 0 retries.
Definition get_html (url : pystr) : M doc := get_html_r url 3.

(** [fetch_wikitext_via_api(page_title, session)]: a single attempt, whose
    failure propagates. *)
Definition fetch_wikitext_via_api (page_title : pystr) : M (option page_data) :=
  r <- api_get page_title ;;
  match parse_api r with
  | None => raise RequestError
  | Some res => ret res
  end.

Record srecord := mkSRecord {
  title : pystr;
  url : pystr;
  wikitext : pystr;
  revision_timestamp : option pystr
}.
(* the ["fetched_at"] wall-clock field is not modelled *)

(** The title computation of [main]'s loop. *)
Definition url_title (u : pystr) : pystr :=
  let path := replace WIKI_BASE [] u in
  let path := if contains_ch 35 path then
                match split_first 35 path with Some (a, _) => a | None => path end
              else path in
  unquote (replace (lit "/wiki/") [] path).

(** How one iteration of the loop leaves the [try]. *)
Inductive try_exit := Continued | Written (r : srecord) | Caught.

(** One iteration: [None] when no record is written. *)
Definition fetch_one (u : pystr) : M (option srecord) :=
  let t := url_title u in
  log INFO ;;;
  ex <- try_catch
          (result <- fetch_wikitext_via_api t ;;
           match result with
           | None => log WARN ;;; sleep SLEEP_SECONDS ;;; ret Continued
           | Some d => ret (Written (mkSRecord t u (data_wikitext d) (data_timestamp d)))
           end)
          (fun _ => log ERROR ;;; ret Caught) ;;
  match ex with
  | Continued => ret None
  | Written r => sleep SLEEP_SECONDS ;;; ret (Some r)
  | Caught => sleep SLEEP_SECONDS ;;; ret None
  end.

(** [for url in talk_links: ...]: the records written, in order. *)
Fixpoint fetch_loop (urls : list pystr) : M (list srecord) :=
  match urls with
  | [] => ret []
  | u :: rest =>
      o <- fetch_one u ;;
      recs <- fetch_loop rest ;;
      ret (match o with Some r => r :: recs | None => recs end)
  end.

(** [main(page_name, outdir, limit)]: returns the links written to the
    links file and the records written to the records file (directory and
    file names are not modelled). *)
Definition main (page_name : pystr) (limit : Z) : M (list pystr * list srecord) :=
  log INFO ;;;
  let page_url := WIKI_BASE ++ lit "/wiki/" ++ replace (lit " ") (lit "_") page_name in
  html <- get_html page_url ;;
  log INFO ;;;
  let talk_links := extract_talk_links_from_html html in
  log INFO ;;;
  let talk_links := py_slice_to talk_links limit in
  log INFO ;;;
  recs <- fetch_loop talk_links ;;
  log INFO ;;;
  ret (talk_links, recs).

End ScrapeDrn.

(* ================================================================= *)
(** ** fetch_talkpages.py *)

Module FetchTalkpages.

(** [fetch_wikitext_via_api(title, session, retries)] *)
Fixpoint fetch_attempts (t : pystr) (attempt fuel : nat) : M (option page_data) :=
  match fuel with
  | 0 => log ERROR ;;; ret None
  | S f =>
      r <- api_get t ;;
      match parse_api r with
      | Some res => ret res
      | None =>
          log WARN ;;;
          sleep (2 * (attempt + 1)) ;;;
          fetch_attempts t (S attempt) f
      end
  end.

Definition fetch_wikitext_via_api_r (t : pystr) (retries : nat) : M (option page_data) :=
  fetch_attempts t 0 retries.
Definition fetch_wikitext_via_api (t : pystr) : M (option page_data) :=
  fetch_wikitext_via_api_r t 3.

Definition WIKI_PREFIX : pystr := lit "https://en.wikipedia.org/wiki/".

Definition split_title_and_anchor (u : pystr) : pystr * option pystr :=
  let path := replace WIKI_PREFIX [] u in
  match split_first 35 path with
  | Some (page, anchor) => (unquote page, Some (unquote anchor))
  | None => (unquote path, None)
  end.

(** [cached_pages]: a dict from titles to fetched data. *)
Definition cache := list (pystr * page_data).

Fixpoint cache_lookup (k : pystr) (c : cache) : option page_data :=
  match c with
  | [] => None
  | (k', d) :: c' => if str_eqb k k' then Some d else cache_lookup k c'
  end.

(** Lines 108-115 of [main]: the cached data for [t], or a fetch whose
    success is stored in the cache. *)
Definition resolve (c : cache) (t : pystr) : M (option page_data * cache) :=
  match cache_lookup t c with
  | Some d => ret (Some d, c)
  | None =>
      log INFO ;;;
      data <- fetch_wikitext_via_api t ;;
      match data with
      | None => log WARN ;;; ret (None, c)
      | Some d => sleep SLEEP_SECONDS ;;; ret (Some d, (t, d) :: c)
      end
  end.

Record record := mkRecord {
  title : pystr;
  anchor : option pystr;
  url : pystr;
  wikitext : pystr;
  revision_timestamp : option pystr
}.
(* the ["fetched_at"] wall-clock field is not modelled *)

(** [for line in fin: ...] over the ["url"] fields of the input lines. *)
Fixpoint main_loop (c : cache) (urls : list pystr) : M (list record) :=
  match urls with
  | [] => ret []
  | u :: rest =>
      let '(t, a) := split_title_and_anchor u in
      r <- resolve c t ;;
      let '(res, c') := r in
      match res with
      | None => main_loop c' rest
      | Some d =>
          out <- main_loop c' rest ;;
          ret (mkRecord t a u (data_wikitext d) (data_timestamp d) :: out)
      end
  end.

(** [main(input_file, outdir)]: the records written to [talkpages.jsonl]. *)
Definition main (urls : list pystr) : M (list record) :=
  log INFO ;;;
  recs <- main_loop [] urls ;;
  log INFO ;;;
  ret recs.

End FetchTalkpages.

(* ================================================================= *)
(** ** Definitions that follow the spec's words *)

(** Spec 4.2: each distinct identifier once, in link order of first
    occurrence. *)
Fixpoint dedup_first_occurrence (xs : list pystr) : list pystr :=
  match xs with
  | [] => []
  | x :: xs' => x :: filter (fun y => negb (str_eqb y x)) (dedup_first_occurrence xs')
  end.

Definition extract_spec (html : doc) : list pystr :=
  dedup_first_occurrence (map urljoin_wiki (filter (startswith TALK_PREFIX) (hrefs html))).

(** The resolution each input link gets in [FetchTalkpages.main_loop]:
    the same loop over [resolve] with the record writing left out. *)
Fixpoint resolutions (c : FetchTalkpages.cache) (urls : list pystr)
  : M (list (pystr * option page_data)) :=
  match urls with
  | [] => ret []
  | u :: rest =>
      let '(t, _) := FetchTalkpages.split_title_and_anchor u in
      r <- FetchTalkpages.resolve c t ;;
      let '(res, c') := r in
      out <- resolutions c' rest ;;
      ret ((u, res) :: out)
  end.

(** The record [main] writes for a link resolved to [d]. *)
Definition record_of (u : pystr) (d : page_data) : FetchTalkpages.record :=
  let '(t, a) := FetchTalkpages.split_title_and_anchor u in
  FetchTalkpages.mkRecord t a u (data_wikitext d) (data_timestamp d).

Definition link_title (u : pystr) : pystr := fst (FetchTalkpages.split_title_and_anchor u).

(** The url [ScrapeDrn.main] builds from the page name. *)
Definition seed_url (page_name : pystr) : pystr :=
  WIKI_BASE ++ lit "/wiki/" ++ replace (lit " ") (lit "_") page_name.

(* ================================================================= *)
(** ** Small worlds for the examples *)

Definition api_table (tbl : list (pystr * api_resp)) : nat -> pystr -> api_resp :=
  fun _ t => match find (fun '(k, _) => str_eqb k t) tbl with
             | Some (_, r) => r
             | None => ApiMissing
             end.

Definition html_table (tbl : list (pystr * doc)) : nat -> pystr -> option doc :=
  fun _ u => match find (fun '(k, _) => str_eqb k u) tbl with
             | Some (_, d) => Some d
             | None => None
             end.

Definition world0 (h : nat -> pystr -> option doc) (a : nat -> pystr -> api_resp) : world :=
  mkWorld h a 0 [].

Definition api_requests (tr : list event) : list pystr :=
  flat_map (fun e => match e with EApi t => [t] | _ => [] end) tr.

Definition html_requests (tr : list event) : list pystr :=
  flat_map (fun e => match e with EHtml u => [u] | _ => [] end) tr.

Definition sleeps (tr : list event) : list nat :=
  flat_map (fun e => match e with ESleep n => [n] | _ => [] end) tr.

(** A noticeboard whose seed page links to ["Talk:X"] and to an archive
    page, which links to ["Talk:Z"]. *)
Definition drn_archive_url : pystr := lit "https://en.wikipedia.org/wiki/Wikipedia:DRN/Archive_1".

Definition drn_world : world :=
  world0
    (html_table [(seed_url (lit "Wikipedia:DRN"),
                  [Some (lit "/wiki/Talk:X#A"); Some (lit "/wiki/Wikipedia:DRN/Archive_1")]);
                 (drn_archive_url, [Some (lit "/wiki/Talk:Z")])])
    (api_table [(lit "Talk:X", ApiRev (Some (lit "foo")) None);
                (lit "Talk:Z", ApiRev (Some (lit "zz")) None)]).

(** A seed page with three talk links. *)
Definition three_links_world : world :=
  world0
    (html_table [(seed_url (lit "P"),
                  [Some (lit "/wiki/Talk:A"); Some (lit "/wiki/Talk:B"); Some (lit "/wiki/Talk:C")])])
    (api_table [(lit "Talk:A", ApiRev (Some (lit "a")) None);
                (lit "Talk:B", ApiRev (Some (lit "b")) None);
                (lit "Talk:C", ApiRev (Some (lit "c")) None)]).

(* ================================================================= *)
Definition backoff (a n : nat) : list nat := map (fun k => 2 * (k + 1)) (seq a n).

Definition fail_block (t : pystr) (k : nat) : list event := [EApi t; ELog WARN; ESleep (2 * (k + 1))].
Definition html_fail_block (u : pystr) (k : nat) : list event := [EHtml u; ELog WARN; ESleep (2 * (k + 1))].

Definition fetch_talkpages_fail_witness_world : world :=
  world0 (fun _ _ => None) (fun _ _ => ApiFail).

Ltac unfold_M :=
  unfold bind, ret, log, sleep, emit, raise, try_catch, api_get, html_get in *.

Definition emitted (o : pystr * option page_data) : list FetchTalkpages.record :=
  match o with
  | (u, Some d) => [record_of u d]
  | (_, None) => []
  end.

Definition absent_or_failing (w : world) (t : pystr) : Prop :=
  (forall k, api_at w k t = ApiFail) \/
  api_at w (ncalls w) t = ApiMissing \/
  api_at w (ncalls w) t = ApiNoPages \/
  api_at w (ncalls w) t = ApiNoRevs.

(** A character left by the filter and the whitespace substitution. *)
Definition filename_char (is_alnum is_space : nat -> bool) (c : nat) : Prop :=
  is_space c = false /\ (is_alnum c = true \/ c = 95 \/ c = 45).

(** ASCII classification: [\w] as letters, digits (and the underscore,
    handled by [is_word]), [\s] as space, tab, newline, vertical tab, form
    feed and carriage return. *)
Definition ascii_alnum (c : nat) : bool :=
  ((48 <=? c) && (c <=? 57)) || ((65 <=? c) && (c <=? 90)) || ((97 <=? c) && (c <=? 122)).

Definition ascii_space (c : nat) : bool :=
  (c =? 32) || ((9 <=? c) && (c <=? 13)).

(* ================================================================= *)
(** ** Definitions for the further properties *)

(** [p] occurs in [s]: the condition [p in s] of Python. *)
Definition infix (p s : pystr) : Prop := exists x y, s = x ++ p ++ y.

(** The [#anchor] part of a url, if any. *)
Definition anchor_part (a : option pystr) : pystr :=
  match a with Some x => 35 :: x | None => [] end.

(** The record one iteration of [ScrapeDrn.main]'s loop writes for the
    response [r] to its only request, if any. *)
Definition one_outcome (u : pystr) (r : api_resp) : option ScrapeDrn.srecord :=
  match r with
  | ApiRev c ts =>
      Some (ScrapeDrn.mkSRecord (ScrapeDrn.url_title u) u
              (match c with Some x => x | None => [] end) ts)
  | _ => None
  end.

(** The warning or error line that iteration prints for [r]. *)
Definition one_log (r : api_resp) : list event :=
  match r with
  | ApiFail => [ELog ERROR]
  | ApiRev _ _ => []
  | _ => [ELog WARN]
  end.

(** The titles of [ts] that are neither in [seen] nor earlier in [ts]. *)
Fixpoint fresh_titles (seen : list pystr) (ts : list pystr) : list pystr :=
  match ts with
  | [] => []
  | t :: ts' =>
      if existsb (str_eqb t) seen then fresh_titles seen ts'
      else t :: fresh_titles (t :: seen) ts'
  end.

(** A response carrying a revision. *)
Definition is_rev (r : api_resp) : Prop := exists c ts, r = ApiRev c ts.

(** A decision procedure for [infix]. *)
Fixpoint infixb (p s : pystr) : bool :=
  startswith p s || match s with [] => false | _ :: s' => infixb p s' end.

(** Worlds for the examples: the first page request fails; the first two
    API requests fail and the third reports a missing page; every page is
    present. *)
Definition flaky_html_world : world :=
  world0 (fun n _ => if n =? 0 then None else Some []) (fun _ _ => ApiFail).

Definition flaky_api_world : world :=
  world0 (fun _ _ => None)
    (fun n _ => if n <? 2 then ApiFail else if n =? 2 then ApiMissing
                else ApiRev (Some (lit "x")) None).

Definition all_present_world : world :=
  world0 (fun _ _ => None) (fun _ t => ApiRev (Some t) None).

(** * Proofs *)

(** ** The effect monad *)

Lemma api_requests_app l1 l2 : api_requests (l1 ++ l2) = api_requests l1 ++ api_requests l2.
Proof. unfold api_requests. apply flat_map_app. Qed.

Lemma html_requests_app l1 l2 : html_requests (l1 ++ l2) = html_requests l1 ++ html_requests l2.
Proof. unfold html_requests. apply flat_map_app. Qed.

Lemma sleeps_app l1 l2 : sleeps (l1 ++ l2) = sleeps l1 ++ sleeps l2.
Proof. unfold sleeps. apply flat_map_app. Qed.

Create Rewrite HintDb trace_db.
#[export] Hint Rewrite api_requests_app html_requests_app sleeps_app app_nil_r : trace_db.

Lemma backoff_sorted a n : Sorted lt (backoff a n).
Proof.
  revert a. induction n as [|n IH]; intro a; simpl.
  - constructor.
  - constructor; [apply IH |].
    destruct n; simpl; constructor; lia.
Qed.

(** ** Retries *)

Lemma fetch_attempts_all_fail t : forall n a w,
  (forall k, api_at w k t = ApiFail) ->
  FetchTalkpages.fetch_attempts t a n w =
    (inl None, mkWorld (html_at w) (api_at w) (ncalls w + n)
                 (trace w ++ flat_map (fail_block t) (seq a n) ++ [ELog ERROR])).
Proof.
  induction n as [|n IH]; intros a w Hfail.
  - destruct w; simpl. rewrite Nat.add_0_r. reflexivity.
  - simpl. unfold bind at 1, api_get. rewrite Hfail. simpl.
    unfold bind, log, sleep, emit. simpl.
    rewrite IH by (simpl; exact Hfail). simpl.
    f_equal. f_equal; [lia |].
    unfold fail_block. rewrite <- !app_assoc. reflexivity.
Qed.

Lemma get_html_all_fail u : forall n a w,
  (forall k, html_at w k u = None) ->
  ScrapeDrn.get_html_attempts u a n w =
    (inr (RuntimeError u), mkWorld (html_at w) (api_at w) (ncalls w + n)
                 (trace w ++ flat_map (html_fail_block u) (seq a n))).
Proof.
  induction n as [|n IH]; intros a w Hfail.
  - destruct w; simpl. rewrite Nat.add_0_r, app_nil_r. reflexivity.
  - simpl. unfold bind at 1, html_get. rewrite Hfail. simpl.
    unfold bind, log, sleep, emit. simpl.
    rewrite IH by (simpl; exact Hfail). simpl.
    f_equal. f_equal; [lia |].
    unfold html_fail_block. rewrite <- !app_assoc. reflexivity.
Qed.

Lemma fail_blocks_requests t a n :
  api_requests (flat_map (fail_block t) (seq a n)) = repeat t n /\
  sleeps (flat_map (fail_block t) (seq a n)) = backoff a n.
Proof.
  revert a. induction n as [|n IH]; intro a; [split; reflexivity |].
  simpl. destruct (IH (S a)) as [H1 H2].
  autorewrite with trace_db. rewrite H1, H2. split; reflexivity.
Qed.

Lemma html_fail_blocks_requests u a n :
  html_requests (flat_map (html_fail_block u) (seq a n)) = repeat u n /\
  sleeps (flat_map (html_fail_block u) (seq a n)) = backoff a n.
Proof.
  revert a. induction n as [|n IH]; intro a; [split; reflexivity |].
  simpl. destruct (IH (S a)) as [H1 H2].
  autorewrite with trace_db. rewrite H1, H2. split; reflexivity.
Qed.

(** C6: a fetch whose every attempt fails makes exactly [retries] requests
    (3 by default), sleeping [2 * attempt_number] seconds after attempt
    number 1, 2, ...: the sleeps strictly increase.  This holds for the
    retrying API fetch of fetch_talkpages.py (which then returns [None])
    and for [get_html] of scrape_drn.py (which then raises). *)
Theorem retry_bound_all_attempts_fail (retries : nat) (t u : pystr) (w : world)
  (Hapi : forall k, api_at w k t = ApiFail)
  (Hhtml : forall k, html_at w k u = None) :
  (exists new w',
     FetchTalkpages.fetch_wikitext_via_api_r t retries w = (inl None, w') /\
     trace w' = trace w ++ new /\
     api_requests new = repeat t retries /\
     sleeps new = map (fun k => 2 * (k + 1)) (seq 0 retries) /\
     Sorted lt (sleeps new)) /\
  (exists new w',
     ScrapeDrn.get_html_r u retries w = (inr (RuntimeError u), w') /\
     trace w' = trace w ++ new /\
     html_requests new = repeat u retries /\
     sleeps new = map (fun k => 2 * (k + 1)) (seq 0 retries) /\
     Sorted lt (sleeps new)).
Proof.
  split.
  - eexists _, _. split.
    { unfold FetchTalkpages.fetch_wikitext_via_api_r. rewrite fetch_attempts_all_fail by exact Hapi.
      reflexivity. }
    simpl. split; [reflexivity |].
    destruct (fail_blocks_requests t 0 retries) as [H1 H2].
    autorewrite with trace_db. rewrite H1, H2. simpl. autorewrite with trace_db.
    split; [|split]; [reflexivity | reflexivity | apply backoff_sorted].
  - eexists _, _. split.
    { unfold ScrapeDrn.get_html_r. rewrite get_html_all_fail by exact Hhtml. reflexivity. }
    simpl. split; [reflexivity |].
    destruct (html_fail_blocks_requests u 0 retries) as [H1 H2].
    rewrite H1, H2. split; [|split]; [reflexivity | reflexivity | apply backoff_sorted].
Qed.

(** Witness of C6: every attempt fails for ["Talk:A"] and for the seed. *)
Lemma retry_bound_all_attempts_fail_witness :
  (forall k, api_at fetch_talkpages_fail_witness_world k (lit "Talk:A") = ApiFail) /\
  (forall k, html_at fetch_talkpages_fail_witness_world k WIKI_BASE = None) /\
  ((exists new w',
     FetchTalkpages.fetch_wikitext_via_api_r (lit "Talk:A") 3 fetch_talkpages_fail_witness_world
       = (inl None, w') /\
     trace w' = trace fetch_talkpages_fail_witness_world ++ new /\
     api_requests new = repeat (lit "Talk:A") 3 /\
     sleeps new = map (fun k => 2 * (k + 1)) (seq 0 3) /\
     Sorted lt (sleeps new)) /\
  (exists new w',
     ScrapeDrn.get_html_r WIKI_BASE 3 fetch_talkpages_fail_witness_world
       = (inr (RuntimeError WIKI_BASE), w') /\
     trace w' = trace fetch_talkpages_fail_witness_world ++ new /\
     html_requests new = repeat WIKI_BASE 3 /\
     sleeps new = map (fun k => 2 * (k + 1)) (seq 0 3) /\
     Sorted lt (sleeps new))).
Proof.
  split; [intro k; reflexivity |].
  split; [intro k; reflexivity |].
  apply retry_bound_all_attempts_fail; intro k; reflexivity.
Defined.

(** ** The resolver of fetch_talkpages.py *)

Lemma str_eqb_true a b : str_eqb a b = true <-> a = b.
Proof. unfold str_eqb. destruct (list_eq_dec Nat.eq_dec a b); split; congruence. Qed.

Lemma str_eqb_refl a : str_eqb a a = true.
Proof. apply str_eqb_true. reflexivity. Qed.

(** The retrying fetch never raises, and it requests [t] first. *)
Lemma fetch_attempts_total t : forall n a w,
  exists r new w',
    FetchTalkpages.fetch_attempts t a n w = (inl r, w') /\
    trace w' = trace w ++ new /\
    (0 < n -> exists rest, new = EApi t :: rest).
Proof.
  induction n as [|n IH]; intros a w.
  - exists None, [ELog ERROR], (add_event (ELog ERROR) w). repeat split; [lia].
  - simpl. unfold_M. simpl.
    destruct (parse_api (api_at w (ncalls w) t)) as [res|] eqn:E.
    + eexists res, [EApi t], _. repeat split. eauto.
    + match goal with
      | |- context [FetchTalkpages.fetch_attempts t (S a) n ?w1] =>
          destruct (IH (S a) w1) as (r & new & w' & H1 & H2 & _); rewrite H1
      end.
      exists r, ([EApi t; ELog WARN; ESleep (2 * (a + 1))] ++ new), w'.
      split; [reflexivity |]. split.
      * rewrite H2. simpl. rewrite <- !app_assoc. reflexivity.
      * intros _. eexists. reflexivity.
Qed.

Lemma resolve_hit c t d w :
  FetchTalkpages.cache_lookup t c = Some d ->
  FetchTalkpages.resolve c t w = (inl (Some d, c), w).
Proof. intro H. unfold FetchTalkpages.resolve. rewrite H. reflexivity. Qed.

(** A cache miss logs, requests [t], and stores a success. *)
Lemma resolve_miss c t w :
  FetchTalkpages.cache_lookup t c = None ->
  exists r c' rest w',
    FetchTalkpages.resolve c t w = (inl (r, c'), w') /\
    trace w' = trace w ++ ELog INFO :: EApi t :: rest /\
    match r with
    | Some d => c' = (t, d) :: c
    | None => c' = c
    end.
Proof.
  intro H. unfold FetchTalkpages.resolve. rewrite H.
  unfold FetchTalkpages.fetch_wikitext_via_api, FetchTalkpages.fetch_wikitext_via_api_r.
  destruct (fetch_attempts_total t 3 0 (add_event (ELog INFO) w))
    as (r & new & w1 & H1 & H2 & H3).
  destruct (H3 ltac:(lia)) as [rest ->].
  unfold bind at 1, log at 1, emit at 1. unfold bind at 1. rewrite H1.
  destruct r as [d|]; unfold_M.
  - eexists (Some d), _, (rest ++ [ESleep SLEEP_SECONDS]), _. split; [reflexivity |].
    split; [| reflexivity]. simpl. rewrite H2. simpl. rewrite <- !app_assoc. reflexivity.
  - eexists None, _, (rest ++ [ELog WARN]), _. split; [reflexivity |].
    split; [| reflexivity]. simpl. rewrite H2. simpl. rewrite <- !app_assoc. reflexivity.
Qed.

(** C1, counterexample: a page the API reports missing is not cached, so
    resolving ["Talk:Y"] twice requests it from the API twice. *)
Lemma resolve_absent_twice_two_requests :
  match FetchTalkpages.resolve [] (lit "Talk:Y") (world0 (fun _ _ => None) (fun _ _ => ApiMissing)) with
  | (inl (r1, c1), w1) =>
      match FetchTalkpages.resolve c1 (lit "Talk:Y") w1 with
      | (inl (r2, _), w2) =>
          r1 = None /\ r2 = None /\ c1 = [] /\
          api_requests (trace w2) = [lit "Talk:Y"; lit "Talk:Y"]
      | _ => False
      end
  | _ => False
  end.
Proof. vm_compute. auto. Qed.

(** C1 (amended): resolving a title twice.  When the first resolution
    yields page data, the second one returns the identical data and cache
    and leaves the world untouched (no request, no event).  When the first
    yields nothing (a page reported absent, or all attempts failed: both are
    [None]), nothing is cached, and the second resolution requests the title
    from the API again. *)
Theorem resolve_twice (c : FetchTalkpages.cache) (t : pystr) (w : world) :
  match FetchTalkpages.resolve c t w with
  | (inl (Some d, c1), w1) =>
      FetchTalkpages.resolve c1 t w1 = (inl (Some d, c1), w1)
  | (inl (None, c1), w1) =>
      c1 = c /\
      exists r c2 rest w2,
        FetchTalkpages.resolve c1 t w1 = (inl (r, c2), w2) /\
        trace w2 = trace w1 ++ ELog INFO :: EApi t :: rest
  | (inr _, _) => False
  end.
Proof.
  destruct (FetchTalkpages.cache_lookup t c) as [d|] eqn:E.
  - rewrite (resolve_hit c t d w E). apply resolve_hit, E.
  - destruct (resolve_miss c t w E) as (r & c' & rest & w' & H1 & _ & H3).
    rewrite H1. destruct r as [d|].
    + subst c'. apply resolve_hit. simpl. rewrite str_eqb_refl. reflexivity.
    + subst c'. split; [reflexivity |].
      destruct (resolve_miss c t w' E) as (r2 & c2 & rest2 & w2 & H4 & H5 & _).
      eauto 7.
Qed.

Lemma resolve_total c t w :
  exists r c' w', FetchTalkpages.resolve c t w = (inl (r, c'), w').
Proof.
  destruct (FetchTalkpages.cache_lookup t c) as [d|] eqn:E.
  - rewrite (resolve_hit c t d w E). eauto.
  - destruct (resolve_miss c t w E) as (r & c' & _ & w' & H & _). eauto.
Qed.

(** The cache only grows, and a success is in the cache afterwards. *)
Lemma resolve_cache c t w r c' w' :
  FetchTalkpages.resolve c t w = (inl (r, c'), w') ->
  (forall t' d', FetchTalkpages.cache_lookup t' c = Some d' ->
                 FetchTalkpages.cache_lookup t' c' = Some d') /\
  (forall d, r = Some d -> FetchTalkpages.cache_lookup t c' = Some d).
Proof.
  intro H.
  destruct (FetchTalkpages.cache_lookup t c) as [d0|] eqn:E.
  - rewrite (resolve_hit c t d0 w E) in H. injection H as <- <- <-.
    split; [auto | intros d Hd; congruence].
  - destruct (resolve_miss c t w E) as (r2 & c2 & rest & w2 & H2 & _ & H3).
    rewrite H2 in H. injection H as <- <- <-.
    destruct r2 as [d2|]; subst c2; split.
    + intros t' d' Ht'. simpl.
      destruct (str_eqb t' t) eqn:Eq; [apply str_eqb_true in Eq; congruence | exact Ht'].
    + intros d Hd. injection Hd as <-. simpl. rewrite str_eqb_refl. reflexivity.
    + auto.
    + discriminate.
Qed.

(** [main_loop] writes exactly the records of the links whose resolution
    is present, and never raises. *)
Lemma main_loop_resolutions : forall urls c w,
  exists outs w',
    map fst outs = urls /\
    resolutions c urls w = (inl outs, w') /\
    FetchTalkpages.main_loop c urls w = (inl (flat_map emitted outs), w').
Proof.
  induction urls as [|u urls IH]; intros c w.
  - exists [], w. repeat split.
  - simpl. destruct (FetchTalkpages.split_title_and_anchor u) as [t a] eqn:Es.
    destruct (resolve_total c t w) as (r & c' & w1 & Hr).
    destruct (IH c' w1) as (outs & w' & H1 & H2 & H3).
    exists ((u, r) :: outs), w'.
    unfold bind. rewrite Hr, H2. split; [simpl; congruence |]. split; [reflexivity |].
    destruct r as [d|].
    + rewrite H3. unfold ret. simpl. unfold record_of. rewrite Es. reflexivity.
    + exact H3.
Qed.

(** Once a title is cached, every later link to it resolves to the cached
    data. *)
Lemma resolutions_cached : forall urls c w outs w',
  resolutions c urls w = (inl outs, w') ->
  forall t d, FetchTalkpages.cache_lookup t c = Some d ->
  forall u r, In (u, r) outs -> link_title u = t -> r = Some d.
Proof.
  induction urls as [|u0 urls IH]; intros c w outs w' H t d Hc u r Hin Ht.
  - injection H as <- _. destruct Hin.
  - simpl in H. unfold link_title in Ht.
    destruct (FetchTalkpages.split_title_and_anchor u0) as [t0 a0] eqn:Es.
    destruct (resolve_total c t0 w) as (r0 & c' & w1 & Hr).
    unfold bind at 1 in H. rewrite Hr in H.
    destruct (main_loop_resolutions urls c' w1) as (outs' & w2 & _ & H2 & _).
    unfold bind in H. rewrite H2 in H. injection H as <- _.
    destruct (resolve_cache c t0 w r0 c' w1 Hr) as [Hgrow _].
    destruct Hin as [Heq | Hin].
    + injection Heq as <- <-. rewrite Es in Ht. simpl in Ht. subst t0.
      rewrite (resolve_hit c t d w Hc) in Hr. congruence.
    + eapply IH; [exact H2 | apply Hgrow, Hc | exact Hin | exact Ht].
Qed.

Lemma resolutions_shared : forall urls c w outs w',
  resolutions c urls w = (inl outs, w') ->
  forall pre u d post, outs = pre ++ (u, Some d) :: post ->
  forall u' r', In (u', r') post -> link_title u' = link_title u -> r' = Some d.
Proof.
  induction urls as [|u0 urls IH]; intros c w outs w' H pre u d post Hout u' r' Hin Ht.
  - injection H as <- _. destruct pre; discriminate.
  - simpl in H.
    destruct (FetchTalkpages.split_title_and_anchor u0) as [t0 a0] eqn:Es.
    destruct (resolve_total c t0 w) as (r0 & c' & w1 & Hr).
    unfold bind at 1 in H. rewrite Hr in H.
    destruct (main_loop_resolutions urls c' w1) as (outs' & w2 & _ & H2 & _).
    unfold bind in H. rewrite H2 in H. injection H as <- _.
    destruct pre as [|p pre].
    + simpl in Hout. injection Hout as -> -> ->.
      destruct (resolve_cache c t0 w (Some d) c' w1 Hr) as [_ Hnew].
      eapply resolutions_cached; [exact H2 | apply Hnew; reflexivity | exact Hin |].
      rewrite Ht. unfold link_title. rewrite Es. reflexivity.
    + simpl in Hout. injection Hout as _ Hout.
      eapply IH; eauto.
Qed.

(** C3: [main] of fetch_talkpages.py writes one record per input link whose
    resolution is present (the record of that link: its own title, anchor
    and url with the resolved text), none for a link whose resolution is
    absent or failed, and never raises; a link whose title was resolved to
    a page by an earlier link shares that earlier resolution. *)
Theorem join_completeness (urls : list pystr) (w : world) :
  exists outs w1,
    map fst outs = urls /\
    resolutions [] urls (add_event (ELog INFO) w) = (inl outs, w1) /\
    FetchTalkpages.main urls w = (inl (flat_map emitted outs), add_event (ELog INFO) w1) /\
    (forall pre u d post, outs = pre ++ (u, Some d) :: post ->
     forall u' r', In (u', r') post -> link_title u' = link_title u -> r' = Some d).
Proof.
  destruct (main_loop_resolutions urls [] (add_event (ELog INFO) w)) as (outs & w1 & H1 & H2 & H3).
  exists outs, w1. split; [exact H1 |]. split; [exact H2 |]. split.
  - unfold FetchTalkpages.main, bind, log, emit. rewrite H3. reflexivity.
  - eapply resolutions_shared; exact H2.
Qed.

(** The scenario of the spec, on the resolution stage: two links into
    ["Talk:X"] share one request, ["Talk:Y"] is absent and dropped. *)
Example scenario_fetch_talkpages :
  let w := world0 (fun _ _ => None)
             (api_table [(lit "Talk:X", ApiRev (Some (lit "foo")) None);
                         (lit "Talk:Z", ApiRev (Some (lit "zz")) None)]) in
  match FetchTalkpages.main
          [lit "https://en.wikipedia.org/wiki/Talk:X#SectionA";
           lit "https://en.wikipedia.org/wiki/Talk:X#SectionB";
           lit "https://en.wikipedia.org/wiki/Talk:Y";
           lit "https://en.wikipedia.org/wiki/Talk:Z"] w with
  | (inl recs, w') =>
      map (fun r => (FetchTalkpages.title r, FetchTalkpages.anchor r, FetchTalkpages.wikitext r)) recs
        = [(lit "Talk:X", Some (lit "SectionA"), lit "foo");
           (lit "Talk:X", Some (lit "SectionB"), lit "foo");
           (lit "Talk:Z", None, lit "zz")] /\
      api_requests (trace w') = [lit "Talk:X"; lit "Talk:Y"; lit "Talk:Z"]
  | _ => False
  end.
Proof. vm_compute. auto. Qed.

(** ** Exhausted retries and absent pages *)

Lemma absent_or_failing_add_event w t e :
  absent_or_failing w t -> absent_or_failing (add_event e w) t.
Proof. destruct w; exact (fun H => H). Qed.

Lemma fetch_none w t :
  absent_or_failing w t ->
  exists w', FetchTalkpages.fetch_wikitext_via_api t w = (inl None, w').
Proof.
  intros [Hf | [H | [H | H]]];
  unfold FetchTalkpages.fetch_wikitext_via_api, FetchTalkpages.fetch_wikitext_via_api_r.
  - rewrite fetch_attempts_all_fail by exact Hf. eauto.
  - simpl. unfold_M. rewrite H. eauto.
  - simpl. unfold_M. rewrite H. eauto.
  - simpl. unfold_M. rewrite H. eauto.
Qed.

(** C4, counterexample: after three failed attempts the fetch returns the
    same value as for a page the API reports missing. *)
Lemma exhausted_same_as_absent :
  fst (FetchTalkpages.fetch_wikitext_via_api (lit "Talk:A")
         (world0 (fun _ _ => None) (fun _ _ => ApiFail)))
  = fst (FetchTalkpages.fetch_wikitext_via_api (lit "Talk:A")
         (world0 (fun _ _ => None) (fun _ _ => ApiMissing))).
Proof. reflexivity. Qed.

(** C4 (amended): when all attempts fail, [fetch_wikitext_via_api] of
    fetch_talkpages.py returns [None], the value it also returns when the
    API reports the page missing, without pages or without revisions; the
    caller's resolution then yields [None] and caches nothing in both
    cases. *)
Theorem exhausted_and_absent_both_none (t : pystr) (w : world)
  (H : absent_or_failing w t) :
  (exists w', FetchTalkpages.fetch_wikitext_via_api t w = (inl None, w')) /\
  (exists w', FetchTalkpages.resolve [] t w = (inl (None, []), w')).
Proof.
  split; [apply fetch_none, H |].
  unfold FetchTalkpages.resolve. simpl.
  destruct (fetch_none (add_event (ELog INFO) w) t (absent_or_failing_add_event _ _ _ H))
    as [w' Hw'].
  unfold bind at 1, log at 1, emit at 1. unfold bind at 1. rewrite Hw'.
  unfold_M. eauto.
Qed.

Lemma exhausted_and_absent_both_none_witness :
  absent_or_failing (world0 (fun _ _ => None) (fun _ _ => ApiFail)) (lit "Talk:A") /\
  (exists w', FetchTalkpages.fetch_wikitext_via_api (lit "Talk:A")
                (world0 (fun _ _ => None) (fun _ _ => ApiFail)) = (inl None, w')) /\
  (exists w', FetchTalkpages.resolve [] (lit "Talk:A")
                (world0 (fun _ _ => None) (fun _ _ => ApiFail)) = (inl (None, []), w')).
Proof.
  assert (H : absent_or_failing (world0 (fun _ _ => None) (fun _ _ => ApiFail)) (lit "Talk:A"))
    by (left; intro k; reflexivity).
  split; [exact H | apply exhausted_and_absent_both_none; exact H].
Defined.

(** ** The extractor's order *)

Lemma str_compare_eq_iff : forall a b, str_compare a b = Eq <-> a = b.
Proof.
  induction a as [|x a IH]; intros [|y b]; simpl; try (split; congruence).
  destruct (x ?= y) eqn:E.
  - apply Nat.compare_eq_iff in E. subst. rewrite IH. split; congruence.
  - split; [discriminate | intro Heq; injection Heq as -> _; rewrite Nat.compare_refl in E; discriminate].
  - split; [discriminate | intro Heq; injection Heq as -> _; rewrite Nat.compare_refl in E; discriminate].
Qed.

Lemma str_compare_antisym : forall a b, str_compare b a = CompOpp (str_compare a b).
Proof.
  induction a as [|x a IH]; intros [|y b]; simpl; try reflexivity.
  rewrite (Nat.compare_antisym x y). destruct (x ?= y); simpl; [apply IH | reflexivity | reflexivity].
Qed.

Lemma str_lt_trans : forall a b c, str_lt a b -> str_lt b c -> str_lt a c.
Proof.
  unfold str_lt. induction a as [|x a IH]; intros [|y b] [|z c]; simpl; try congruence.
  intros H1 H2.
  destruct (x ?= y) eqn:E1; try discriminate; destruct (y ?= z) eqn:E2; try discriminate.
  - apply Nat.compare_eq_iff in E1, E2. subst. rewrite Nat.compare_refl. eauto.
  - apply Nat.compare_eq_iff in E1. subst. rewrite E2. reflexivity.
  - apply Nat.compare_eq_iff in E2. subst. rewrite E1. reflexivity.
  - apply Nat.compare_lt_iff in E1, E2.
    replace (x ?= z) with Lt; [reflexivity | symmetry; apply Nat.compare_lt_iff; lia].
Qed.

Lemma str_lt_irrefl a : ~ str_lt a a.
Proof. unfold str_lt. intro H. assert (str_compare a a = Eq) by (apply str_compare_eq_iff; auto). congruence. Qed.

Lemma insert_uniq_in x y l : In x (insert_uniq y l) <-> y = x \/ In x l.
Proof.
  induction l as [|z l IH]; simpl; [tauto |].
  destruct (str_compare y z) eqn:E; simpl.
  - apply str_compare_eq_iff in E. subst. tauto.
  - tauto.
  - rewrite IH. tauto.
Qed.

Lemma insert_uniq_sorted y l :
  StronglySorted str_lt l -> StronglySorted str_lt (insert_uniq y l).
Proof.
  induction l as [|z l IH]; intro Hs; simpl.
  - repeat constructor.
  - inversion Hs as [|? ? Hl Hz]; subst.
    destruct (str_compare y z) eqn:E.
    + exact Hs.
    + constructor; [exact Hs |]. constructor; [exact E |].
      eapply Forall_impl; [| exact Hz]. intros a Ha. eapply str_lt_trans; eauto.
    + constructor; [apply IH, Hl |].
      apply Forall_forall. intros a Ha. apply insert_uniq_in in Ha as [<- | Ha].
      * unfold str_lt. rewrite str_compare_antisym, E. reflexivity.
      * rewrite Forall_forall in Hz. auto.
Qed.

Lemma sorted_set_spec xs :
  StronglySorted str_lt (sorted_set xs) /\
  (forall x, In x (sorted_set xs) <-> In x xs).
Proof.
  induction xs as [|y xs [IH1 IH2]]; simpl.
  - split; [constructor | tauto].
  - split; [apply insert_uniq_sorted, IH1 |].
    intro x. rewrite insert_uniq_in, IH2. tauto.
Qed.

Lemma strongly_sorted_nodup l : StronglySorted str_lt l -> NoDup l.
Proof.
  induction 1 as [|a l _ IH Ha]; constructor; [| exact IH].
  intro Hin. rewrite Forall_forall in Ha. exact (str_lt_irrefl a (Ha a Hin)).
Qed.

(** C5, counterexample: links to ["Talk:B"] then ["Talk:A"] come back as
    A before B, not in order of first occurrence. *)
Lemma extract_not_first_occurrence_order :
  extract_talk_links_from_html [Some (lit "/wiki/Talk:B"); Some (lit "/wiki/Talk:A")]
    = [lit "https://en.wikipedia.org/wiki/Talk:A"; lit "https://en.wikipedia.org/wiki/Talk:B"] /\
  extract_spec [Some (lit "/wiki/Talk:B"); Some (lit "/wiki/Talk:A")]
    = [lit "https://en.wikipedia.org/wiki/Talk:B"; lit "https://en.wikipedia.org/wiki/Talk:A"] /\
  extract_talk_links_from_html [Some (lit "/wiki/Talk:B"); Some (lit "/wiki/Talk:A")]
    <> extract_spec [Some (lit "/wiki/Talk:B"); Some (lit "/wiki/Talk:A")].
Proof. vm_compute. split; [reflexivity | split; [reflexivity | discriminate]]. Qed.

(** C5 (amended): the extractor returns each distinct resolved url exactly
    once, in ascending code-point order of the url strings ([sorted]), not
    in order of first occurrence; its elements are exactly the resolved
    urls of the links whose href starts with ["/wiki/Talk:"]. *)
Theorem extract_sorted_distinct (html : doc) :
  StronglySorted str_lt (extract_talk_links_from_html html) /\
  NoDup (extract_talk_links_from_html html) /\
  (forall u, In u (extract_talk_links_from_html html) <->
             In u (map urljoin_wiki (filter (startswith TALK_PREFIX) (hrefs html)))).
Proof.
  unfold extract_talk_links_from_html.
  destruct (sorted_set_spec (map urljoin_wiki (filter (startswith TALK_PREFIX) (hrefs html))))
    as [H1 H2].
  split; [exact H1 | split; [apply strongly_sorted_nodup, H1 | exact H2]].
Qed.

(** ** Title and anchor splitting *)

Lemma split_first_none c s : split_first c s = None <-> contains_ch c s = false.
Proof.
  unfold contains_ch. induction s as [|x s IH]; simpl; [tauto |].
  rewrite (Nat.eqb_sym c x). destruct (x =? c); simpl; [split; discriminate |].
  destruct (split_first c s) as [[a b]|]; rewrite <- IH; split; congruence.
Qed.

Lemma split_first_some c s a b :
  split_first c s = Some (a, b) <-> s = a ++ c :: b /\ contains_ch c a = false.
Proof.
  unfold contains_ch. revert a b. induction s as [|x s IH]; intros a b; simpl.
  - split; [discriminate | intros [H _]; destruct a; discriminate].
  - destruct (x =? c) eqn:E.
    + apply Nat.eqb_eq in E. subst x. split.
      * intro H. injection H as <- <-. split; reflexivity.
      * intros [H1 H2]. destruct a as [|y a]; simpl in *.
        -- injection H1 as ->. reflexivity.
        -- injection H1 as -> _. rewrite Nat.eqb_refl in H2. discriminate.
    + destruct (split_first c s) as [[a' b']|] eqn:Es; split.
      * intro H. injection H as <- <-.
        destruct (proj1 (IH a' b') eq_refl) as [-> H2].
        simpl. rewrite Nat.eqb_sym, E, H2. split; reflexivity.
      * intros [H1 H2]. destruct a as [|y a]; simpl in *.
        -- injection H1 as -> _. rewrite Nat.eqb_refl in E. discriminate.
        -- injection H1 as -> H1. rewrite Nat.eqb_sym, E in H2. simpl in H2.
           pose proof (proj2 (IH a b) (conj H1 H2)) as Hs.
           injection Hs as -> ->. reflexivity.
      * discriminate.
      * intros [H1 H2]. destruct a as [|y a]; simpl in *.
        -- injection H1 as -> _. rewrite Nat.eqb_refl in E. discriminate.
        -- injection H1 as -> H1. rewrite Nat.eqb_sym, E in H2. simpl in H2.
           discriminate (proj2 (IH a b) (conj H1 H2)).
Qed.

Lemma utf8_decode_fuel_nonempty f bs : 0 < f -> bs <> [] -> utf8_decode_fuel f bs <> [].
Proof.
  intros Hf Hbs. destruct f as [|f]; [lia |]. destruct bs as [|b0 r0]; [congruence |].
  cbn [utf8_decode_fuel].
  repeat match goal with
         | |- context [if ?b then _ else _] => destruct b
         | |- context [match ?x with _ => _ end] => destruct x
         end; discriminate.
Qed.

Lemma unquote_to_bytes_nonempty s : s <> [] -> unquote_to_bytes s <> [].
Proof.
  destruct s as [|c s]; [congruence |]. intros _. simpl.
  destruct (c =? 37); [| discriminate].
  destruct s as [|a [|b s']]; try discriminate.
  destruct (hex_val a), (hex_val b); discriminate.
Qed.

Lemma take_ascii_cons c s : c < 128 -> exists run rest, take_ascii (c :: s) = (c :: run, rest).
Proof.
  intro H. simpl. apply Nat.ltb_lt in H. rewrite H.
  destruct (take_ascii s) as [a r]. eauto.
Qed.

Lemma unquote_nil_iff s : unquote s = [] <-> s = [].
Proof.
  split; [| intros ->; reflexivity].
  unfold unquote. destruct (negb (contains_ch 37 s)); [tauto |].
  destruct s as [|c s]; [reflexivity |]. cbn [unquote_runs length].
  destruct (c <? 128) eqn:E.
  - apply Nat.ltb_lt in E. destruct (take_ascii_cons c s E) as (run & rest & Ht).
    rewrite Ht. intro H. apply app_eq_nil in H as [H _].
    exfalso. revert H. apply utf8_decode_fuel_nonempty.
    + destruct (unquote_to_bytes (c :: run)) eqn:Eu; simpl; [| lia].
      exfalso. exact (unquote_to_bytes_nonempty (c :: run) ltac:(discriminate) Eu).
    + apply unquote_to_bytes_nonempty. discriminate.
  - discriminate.
Qed.

(** C8, counterexample: discovered links whose split has an empty title
    (href ["/wiki/Talk:/.."] resolves to the bare [/wiki/] url) and a
    present but empty anchor (the base prefix is also removed from the
    fragment, leaving a trailing ['#']). *)
Lemma split_title_anchor_empty_parts :
  extract_talk_links_from_html [Some (lit "/wiki/Talk:/..")]
    = [lit "https://en.wikipedia.org/wiki/"] /\
  FetchTalkpages.split_title_and_anchor (lit "https://en.wikipedia.org/wiki/") = ([], None) /\
  extract_talk_links_from_html [Some (lit "/wiki/Talk:X#https://en.wikipedia.org/wiki/")]
    = [lit "https://en.wikipedia.org/wiki/Talk:X#https://en.wikipedia.org/wiki/"] /\
  FetchTalkpages.split_title_and_anchor
    (lit "https://en.wikipedia.org/wiki/Talk:X#https://en.wikipedia.org/wiki/")
    = (lit "Talk:X", Some []).
Proof. vm_compute. repeat split. Qed.

(** C8 (amended): with [path] the url after every occurrence of the base
    prefix ["https://en.wikipedia.org/wiki/"] is removed, the anchor is
    absent exactly when [path] has no ['#']; the title (the percent-decoded
    text before the first ['#']) is empty exactly when that text is empty,
    and a present anchor (the percent-decoded text after the first ['#'])
    is empty exactly when that text is empty.  Nothing rules either case
    out. *)
Theorem split_title_and_anchor_emptiness (u : pystr) :
  let path := replace FetchTalkpages.WIKI_PREFIX [] u in
  let '(t, a) := FetchTalkpages.split_title_and_anchor u in
  (a = None <-> contains_ch 35 path = false) /\
  (t = [] <-> path = [] \/ exists rest, path = 35 :: rest) /\
  (forall x, a = Some x ->
     (x = [] <-> exists page, path = page ++ [35] /\ contains_ch 35 page = false)).
Proof.
  cbv zeta. unfold FetchTalkpages.split_title_and_anchor.
  set (path := replace FetchTalkpages.WIKI_PREFIX [] u).
  destruct (split_first 35 path) as [[page raw]|] eqn:E.
  - pose proof E as E'. apply split_first_some in E' as [Hp Hc].
    split; [split; [discriminate | intro H; apply split_first_none in H; congruence] |].
    split.
    + rewrite unquote_nil_iff. split.
      * intros ->. right. exists raw. exact Hp.
      * intros [Hn | [rest Hr]]; [rewrite Hp in Hn; destruct page; discriminate |].
        assert (E2 : split_first 35 path = Some ([], rest)) by (rewrite Hr; simpl; reflexivity).
        congruence.
    + intros x Hx. injection Hx as <-. rewrite unquote_nil_iff. split.
      * intros ->. exists page. split; assumption.
      * intros (page' & Hp' & Hc').
        assert (E2 : split_first 35 path = Some (page', [])) by (apply split_first_some; auto).
        congruence.
  - pose proof E as E'. apply split_first_none in E'.
    split; [split; [intros _; exact E' | reflexivity] |].
    split.
    + rewrite unquote_nil_iff. split; [intros ->; left; reflexivity |].
      intros [H | [rest Hr]]; [exact H |].
      rewrite Hr in E'. unfold contains_ch in E'. simpl in E'. discriminate.
    + intros x Hx. discriminate.
Qed.

(** ** The run of scrape_drn.py *)

Lemma fetch_one_total u w :
  exists o new w',
    ScrapeDrn.fetch_one u w = (inl o, w') /\
    trace w' = trace w ++ new /\
    api_requests new = [ScrapeDrn.url_title u] /\
    html_requests new = [].
Proof.
  unfold ScrapeDrn.fetch_one, ScrapeDrn.fetch_wikitext_via_api. unfold_M. simpl.
  destruct (parse_api (api_at w (ncalls w) (ScrapeDrn.url_title u))) as [[d|]|]; simpl;
    (eexists _, _, _; split; [reflexivity |]; split;
     [simpl; rewrite <- !app_assoc; reflexivity | split; reflexivity]).
Qed.

Lemma fetch_loop_total : forall urls w,
  exists recs new w',
    ScrapeDrn.fetch_loop urls w = (inl recs, w') /\
    trace w' = trace w ++ new /\
    api_requests new = map ScrapeDrn.url_title urls /\
    html_requests new = [].
Proof.
  induction urls as [|u urls IH]; intro w.
  - exists [], [], w. rewrite app_nil_r. repeat split.
  - destruct (fetch_one_total u w) as (o & new1 & w1 & H1 & T1 & A1 & R1).
    destruct (IH w1) as (recs & new2 & w2 & H2 & T2 & A2 & R2).
    simpl. unfold bind. rewrite H1, H2.
    eexists _, (new1 ++ new2), w2. split; [reflexivity |].
    rewrite T2, T1, <- app_assoc. split; [reflexivity |].
    autorewrite with trace_db. rewrite A1, A2, R1, R2. split; reflexivity.
Qed.

Lemma get_html_trace u : forall n a w r w',
  ScrapeDrn.get_html_attempts u a n w = (r, w') ->
  exists new, trace w' = trace w ++ new /\
              Forall (fun v => v = u) (html_requests new) /\ api_requests new = [].
Proof.
  induction n as [|n IH]; intros a w r w' H.
  - simpl in H. injection H as _ <-. exists []. rewrite app_nil_r. repeat constructor.
  - simpl in H. unfold_M. simpl in H.
    destruct (html_at w (ncalls w) u) as [d|].
    + injection H as _ <-. exists [EHtml u]. repeat constructor.
    + apply IH in H as (new & T & F & A).
      exists ([EHtml u; ELog WARN; ESleep (2 * (a + 1))] ++ new).
      rewrite T. simpl. rewrite <- !app_assoc. split; [reflexivity |].
      autorewrite with trace_db. rewrite A. split; [| reflexivity].
      simpl. constructor; [reflexivity | exact F].
Qed.

Lemma get_html_raise_iff u : forall n a w,
  (exists e w', ScrapeDrn.get_html_attempts u a n w = (inr e, w')) <->
  (forall i, i < n -> html_at w (ncalls w + i) u = None).
Proof.
  induction n as [|n IH]; intros a w.
  - simpl. split; [intros _ i Hi; lia | intros _; exists (RuntimeError u), w; reflexivity].
  - simpl. unfold_M. simpl.
    destruct (html_at w (ncalls w) u) as [d|] eqn:E.
    + split; [intros (e & w' & H); discriminate |].
      intro H. specialize (H 0 ltac:(lia)). rewrite Nat.add_0_r in H. congruence.
    + rewrite IH. simpl. split.
      * intros H i Hi. destruct i as [|i]; [rewrite Nat.add_0_r; exact E |].
        replace (ncalls w + S i) with (S (ncalls w) + i) by lia. apply H. lia.
      * intros H i Hi. replace (S (ncalls w + i)) with (ncalls w + S i) by lia. apply H. lia.
Qed.

(** [main] of scrape_drn.py, step by step. *)
Lemma scrape_main_unfold page_name limit w :
  ScrapeDrn.main page_name limit w =
  match ScrapeDrn.get_html (seed_url page_name) (add_event (ELog INFO) w) with
  | (inl html, w1) =>
      let links := py_slice_to (extract_talk_links_from_html html) limit in
      match ScrapeDrn.fetch_loop links
              (add_event (ELog INFO) (add_event (ELog INFO) (add_event (ELog INFO) w1))) with
      | (inl recs, w2) => (inl (links, recs), add_event (ELog INFO) w2)
      | (inr e, w2) => (inr e, w2)
      end
  | (inr e, w1) => (inr e, w1)
  end.
Proof.
  unfold ScrapeDrn.main, seed_url, bind, log, emit, ret.
  destruct (ScrapeDrn.get_html _ _) as [[html|e] w1]; [| reflexivity].
  destruct (ScrapeDrn.fetch_loop _ _) as [[recs|e] w2]; reflexivity.
Qed.

Lemma add_event_trace e w : trace (add_event e w) = trace w ++ [e].
Proof. reflexivity. Qed.

(** C2, counterexample: the archive page linked from the seed is never
    fetched, and ["Talk:Z"], linked only from the archive, is not among the
    links. *)
Lemma discovery_ignores_archive :
  extract_talk_links_from_html [Some (lit "/wiki/Talk:Z")]
    = [lit "https://en.wikipedia.org/wiki/Talk:Z"] /\
  match ScrapeDrn.main (lit "Wikipedia:DRN") 200 drn_world with
  | (inl (links, _), w') =>
      links = [lit "https://en.wikipedia.org/wiki/Talk:X#A"] /\
      html_requests (trace w') = [seed_url (lit "Wikipedia:DRN")]
  | _ => False
  end.
Proof. vm_compute. repeat split. Qed.

(** C2 (amended): a completed run of scrape_drn.py requests no page but
    the seed (once per attempt), and the links it writes and resolves are
    the talk links extracted from the seed document alone (cut to the
    limit); no archive pass exists. *)
Theorem discovery_seed_only (page_name : pystr) (limit : Z) (w : world)
  (links : list pystr) (recs : list ScrapeDrn.srecord) (w' : world)
  (H : ScrapeDrn.main page_name limit w = (inl (links, recs), w')) :
  exists html w1 new,
    ScrapeDrn.get_html (seed_url page_name) (add_event (ELog INFO) w) = (inl html, w1) /\
    links = py_slice_to (extract_talk_links_from_html html) limit /\
    trace w' = trace w ++ new /\
    Forall (fun v => v = seed_url page_name) (html_requests new).
Proof.
  rewrite scrape_main_unfold in H.
  destruct (ScrapeDrn.get_html (seed_url page_name) (add_event (ELog INFO) w))
    as [[html|e] w1] eqn:G; [| discriminate].
  destruct (get_html_trace _ _ _ _ _ _ G) as (new1 & T1 & F1 & _).
  destruct (fetch_loop_total (py_slice_to (extract_talk_links_from_html html) limit)
              (add_event (ELog INFO) (add_event (ELog INFO) (add_event (ELog INFO) w1))))
    as (recs' & new2 & w2 & H2 & T2 & _ & R2).
  cbv zeta in H. rewrite H2 in H. injection H as <- _ <-.
  exists html, w1, ([ELog INFO] ++ new1 ++ [ELog INFO; ELog INFO; ELog INFO] ++ new2 ++ [ELog INFO]).
  split; [reflexivity |]. split; [reflexivity |]. split.
  - rewrite add_event_trace, T2, !add_event_trace, T1, add_event_trace.
    rewrite <- !app_assoc. reflexivity.
  - autorewrite with trace_db. rewrite R2. simpl. rewrite app_nil_r. exact F1.
Qed.

Lemma discovery_seed_only_witness :
  exists links recs w',
    ScrapeDrn.main (lit "Wikipedia:DRN") 200 drn_world = (inl (links, recs), w') /\
    exists html w1 new,
      ScrapeDrn.get_html (seed_url (lit "Wikipedia:DRN")) (add_event (ELog INFO) drn_world)
        = (inl html, w1) /\
      links = py_slice_to (extract_talk_links_from_html html) 200 /\
      trace w' = trace drn_world ++ new /\
      Forall (fun v => v = seed_url (lit "Wikipedia:DRN")) (html_requests new).
Proof.
  destruct (ScrapeDrn.main (lit "Wikipedia:DRN") 200 drn_world) as [[[links recs]|e] w'] eqn:Hm.
  - exists links, recs, w'. split; [reflexivity |].
    exact (discovery_seed_only (lit "Wikipedia:DRN") 200 drn_world links recs w' Hm).
  - exfalso.
    apply (f_equal (fun p => match fst p with inl _ => true | inr _ => false end)) in Hm.
    vm_compute in Hm. discriminate.
Defined.

(** C7: no single talk page aborts a run.  The per-link loop of
    scrape_drn.py never raises and requests every link's title once, in
    order; [main] of fetch_talkpages.py never raises; and [main] of
    scrape_drn.py raises exactly when all three attempts to fetch the seed
    page fail (scrape_drn.py fetches no archive page). *)
Theorem only_seed_failure_aborts (page_name : pystr) (limit : Z) (w : world) :
  (forall urls w0,
     exists recs new w1,
       ScrapeDrn.fetch_loop urls w0 = (inl recs, w1) /\
       trace w1 = trace w0 ++ new /\
       api_requests new = map ScrapeDrn.url_title urls) /\
  (forall urls w0, exists recs w1, FetchTalkpages.main urls w0 = (inl recs, w1)) /\
  ((exists e w', ScrapeDrn.main page_name limit w = (inr e, w')) <->
   (forall i, i < 3 -> html_at w (ncalls w + i) (seed_url page_name) = None)).
Proof.
  split; [| split].
  - intros urls w0. destruct (fetch_loop_total urls w0) as (recs & new & w1 & H & T & A & _).
    exists recs, new, w1. auto.
  - intros urls w0. destruct (join_completeness urls w0) as (outs & w1 & _ & _ & H & _).
    eexists _, _. exact H.
  - rewrite scrape_main_unfold.
    pose proof (get_html_raise_iff (seed_url page_name) 3 0 (add_event (ELog INFO) w)) as Hiff.
    unfold ScrapeDrn.get_html, ScrapeDrn.get_html_r.
    destruct (ScrapeDrn.get_html_attempts (seed_url page_name) 0 3 (add_event (ELog INFO) w))
      as [[html|e] w1] eqn:G.
    + destruct (fetch_loop_total (py_slice_to (extract_talk_links_from_html html) limit)
                  (add_event (ELog INFO) (add_event (ELog INFO) (add_event (ELog INFO) w1))))
        as (recs & new & w2 & H2 & _).
      cbv zeta. rewrite H2. split; [intros (e & w' & H); discriminate |].
      intro Hn. destruct (proj2 Hiff Hn) as (e & w' & H). discriminate.
    + split.
      * intros _. exact (proj1 Hiff (ex_intro _ e (ex_intro _ w1 eq_refl))).
      * intros _. exists e, w1. reflexivity.
Qed.

(** C9, counterexample: with limit [-1] and three extracted links, the
    slice [talk_links[:-1]] keeps two links, more than "the first -1". *)
Lemma negative_limit_keeps_links :
  match ScrapeDrn.main (lit "P") (-1) three_links_world with
  | (inl (links, _), w') =>
      links = [lit "https://en.wikipedia.org/wiki/Talk:A"; lit "https://en.wikipedia.org/wiki/Talk:B"] /\
      api_requests (trace w') = [lit "Talk:A"; lit "Talk:B"]
  | _ => False
  end.
Proof. vm_compute. split; reflexivity. Qed.

(** C9 (amended): the links written and resolved are the extracted links
    cut by Python slicing: the first [min(limit, n)] of the [n] extracted
    links when [limit >= 0], and all but the last [-limit] when [limit < 0].
    Between the seed fetch and the per-link loop only three INFO lines are
    printed (one reports the number found and the limit); the loop requests
    exactly the titles of the kept links, so the dropped links cause no
    request and no warning. *)
Theorem limit_slices_links (page_name : pystr) (limit : Z) (w : world)
  (links : list pystr) (recs : list ScrapeDrn.srecord) (w' : world)
  (H : ScrapeDrn.main page_name limit w = (inl (links, recs), w')) :
  exists html w1 loop_events,
    ScrapeDrn.get_html (seed_url page_name) (add_event (ELog INFO) w) = (inl html, w1) /\
    links = (if (0 <=? limit)%Z
             then firstn (Z.to_nat limit) (extract_talk_links_from_html html)
             else firstn (length (extract_talk_links_from_html html) - Z.to_nat (- limit))
                         (extract_talk_links_from_html html)) /\
    trace w' = trace w1 ++ [ELog INFO; ELog INFO; ELog INFO] ++ loop_events ++ [ELog INFO] /\
    api_requests loop_events = map ScrapeDrn.url_title links.
Proof.
  rewrite scrape_main_unfold in H.
  destruct (ScrapeDrn.get_html (seed_url page_name) (add_event (ELog INFO) w))
    as [[html|e] w1] eqn:G; [| discriminate].
  destruct (fetch_loop_total (py_slice_to (extract_talk_links_from_html html) limit)
              (add_event (ELog INFO) (add_event (ELog INFO) (add_event (ELog INFO) w1))))
    as (recs' & new2 & w2 & H2 & T2 & A2 & _).
  cbv zeta in H. rewrite H2 in H. injection H as <- _ <-.
  exists html, w1, new2. split; [reflexivity |]. split.
  - unfold py_slice_to. destruct (0 <=? limit)%Z eqn:E; [reflexivity |].
    apply Z.leb_gt in E. f_equal. lia.
  - split; [| exact A2].
    rewrite add_event_trace, T2, !add_event_trace. rewrite <- !app_assoc. reflexivity.
Qed.

Lemma limit_slices_links_witness :
  exists links recs w',
    ScrapeDrn.main (lit "P") 2 three_links_world = (inl (links, recs), w') /\
    exists html w1 loop_events,
      ScrapeDrn.get_html (seed_url (lit "P")) (add_event (ELog INFO) three_links_world)
        = (inl html, w1) /\
      links = (if (0 <=? 2)%Z
               then firstn (Z.to_nat 2) (extract_talk_links_from_html html)
               else firstn (length (extract_talk_links_from_html html) - Z.to_nat (- 2))
                           (extract_talk_links_from_html html)) /\
      trace w' = trace w1 ++ [ELog INFO; ELog INFO; ELog INFO] ++ loop_events ++ [ELog INFO] /\
      api_requests loop_events = map ScrapeDrn.url_title links.
Proof.
  destruct (ScrapeDrn.main (lit "P") 2 three_links_world) as [[[links recs]|e] w'] eqn:Hm.
  - exists links, recs, w'. split; [reflexivity |].
    exact (limit_slices_links (lit "P") 2 three_links_world links recs w' Hm).
  - exfalso.
    apply (f_equal (fun p => match fst p with inl _ => true | inr _ => false end)) in Hm.
    vm_compute in Hm. discriminate.
Defined.

Lemma lstrip_ch_forall (P : nat -> Prop) (ch : nat) (s : pystr) :
  Forall P s -> Forall P (ScrapeDrn.lstrip_ch ch s).
Proof.
  induction s as [| c s IH]; intro F; [constructor |].
  cbn. inversion F; subst. destruct (c =? ch); auto.
Qed.

Lemma strip_ch_forall (P : nat -> Prop) (ch : nat) (s : pystr) :
  Forall P s -> Forall P (ScrapeDrn.strip_ch ch s).
Proof.
  intro F. unfold ScrapeDrn.strip_ch.
  apply Forall_rev, lstrip_ch_forall, Forall_rev, lstrip_ch_forall, F.
Qed.

Lemma firstn_forall (P : nat -> Prop) (n : nat) (s : pystr) :
  Forall P s -> Forall P (firstn n s).
Proof.
  revert s. induction n as [| n IH]; intros s F; [constructor |].
  destruct s as [| c s]; [constructor |]. inversion F; subst. cbn. constructor; auto.
Qed.

Section SafeFilenameProofs.

Variable is_alnum : nat -> bool.
Variable is_space : nat -> bool.

Lemma filter_keep_char (s : pystr) :
  Forall (fun c => ScrapeDrn.keep_char is_alnum is_space c = true)
         (filter (ScrapeDrn.keep_char is_alnum is_space) s).
Proof.
  apply Forall_forall. intros c Hc. apply filter_In in Hc. apply Hc.
Qed.

Lemma sub_spaces_chars (H95 : is_space 95 = false) (b : bool) (s : pystr) :
  Forall (fun c => ScrapeDrn.keep_char is_alnum is_space c = true) s ->
  Forall (filename_char is_alnum is_space) (ScrapeDrn.sub_spaces is_space b s).
Proof.
  revert b. induction s as [| c s IH]; intros b F; [constructor |].
  inversion F as [| ? ? Hc Fs]; subst. cbn.
  destruct (is_space c) eqn:Sc.
  - destruct b; [auto |]. constructor; [| auto]. split; [exact H95 | right; left; reflexivity].
  - constructor; [| auto]. split; [exact Sc |].
    unfold ScrapeDrn.keep_char, ScrapeDrn.is_word in Hc. rewrite Sc, orb_false_r in Hc.
    apply orb_true_iff in Hc as [Hc | Hc]; [apply orb_true_iff in Hc as [Hc | Hc] |].
    + left. exact Hc.
    + right; left. apply Nat.eqb_eq, Hc.
    + right; right. apply Nat.eqb_eq, Hc.
Qed.

End SafeFilenameProofs.

(** C10: for any classification of word and whitespace characters in which
    the underscore is not whitespace, the space is whitespace, and neither
    slash nor backslash is a word character, [safe_filename s] has at most
    240 characters, each of them a word character, an underscore or a
    hyphen and none of them whitespace; in particular it contains no space,
    no [/] and no [\]. *)
Theorem safe_filename_charset (is_alnum is_space : nat -> bool)
  (H95 : is_space 95 = false) (H32 : is_space 32 = true)
  (H47 : is_alnum 47 = false) (H92 : is_alnum 92 = false) (s : pystr) :
  let r := ScrapeDrn.safe_filename is_alnum is_space s in
  length r <= 240 /\
  Forall (fun c => is_space c = false /\ (is_alnum c = true \/ c = 95 \/ c = 45)) r /\
  ~ In 32 r /\ ~ In 47 r /\ ~ In 92 r.
Proof.
  cbv zeta.
  assert (F : Forall (filename_char is_alnum is_space)
                     (ScrapeDrn.safe_filename is_alnum is_space s)).
  { unfold ScrapeDrn.safe_filename.
    apply firstn_forall, strip_ch_forall, sub_spaces_chars; [exact H95 |].
    apply filter_keep_char. }
  rewrite Forall_forall in F.
  split; [unfold ScrapeDrn.safe_filename; apply firstn_le_length |].
  split; [apply Forall_forall; exact F |].
  split; [| split]; intro I; destruct (F _ I) as [Hs [Ha | [E | E]]];
    try discriminate E; congruence.
Qed.

Lemma safe_filename_charset_witness :
  ScrapeDrn.safe_filename ascii_alnum ascii_space (lit " ../a b/\c--d  ") = lit "a_bc--d" /\
  let r := ScrapeDrn.safe_filename ascii_alnum ascii_space (lit " ../a b/\c--d  ") in
  length r <= 240 /\
  Forall (fun c => ascii_space c = false /\ (ascii_alnum c = true \/ c = 95 \/ c = 45)) r /\
  ~ In 32 r /\ ~ In 47 r /\ ~ In 92 r.
Proof.
  split; [vm_compute; reflexivity |].
  apply (safe_filename_charset ascii_alnum ascii_space); vm_compute; reflexivity.
Defined.

(* ================================================================= *)
(** * Further properties of the code *)

Lemma startswith_iff p s : startswith p s = true <-> exists r, s = p ++ r.
Proof.
  revert s. induction p as [|a p IH]; intros [|b s]; simpl.
  - split; eauto.
  - split; eauto.
  - split; [discriminate | intros [r H]; discriminate].
  - rewrite andb_true_iff, Nat.eqb_eq, IH. split.
    + intros [-> [r ->]]. eauto.
    + intros [r H]. injection H as -> ->. eauto.
Qed.

Lemma startswith_length p s : startswith p s = true -> length p <= length s.
Proof. intro H. apply startswith_iff in H as [r ->]. rewrite length_app. lia. Qed.

Lemma replace_fuel_enough pat rep : pat <> [] ->
  forall n m s, length s <= n -> length s <= m ->
  replace_fuel n pat rep s = replace_fuel m pat rep s.
Proof.
  intro Hp. induction n as [|n IH]; intros m s Hn Hm.
  - destruct s; [destruct m; reflexivity | simpl in Hn; lia].
  - destruct m as [|m]; [destruct s; [reflexivity | simpl in Hm; lia] |].
    destruct s as [|c s]; [reflexivity |]. simpl.
    destruct (startswith pat (c :: s)) eqn:E.
    + assert (1 <= length pat) by (destruct pat; [congruence | simpl; lia]).
      f_equal. apply IH; rewrite length_skipn; simpl length in *; lia.
    + f_equal. apply IH; simpl in *; lia.
Qed.

Lemma replace_nonempty pat rep s : pat <> [] ->
  replace pat rep s = replace_fuel (length s) pat rep s.
Proof. destruct pat; [congruence | reflexivity]. Qed.

Lemma replace_cons_skip pat rep c s : pat <> [] -> startswith pat (c :: s) = false ->
  replace pat rep (c :: s) = c :: replace pat rep s.
Proof.
  intros Hp E. rewrite !replace_nonempty by exact Hp. simpl. rewrite E. reflexivity.
Qed.

Lemma replace_match pat rep s : pat <> [] ->
  replace pat rep (pat ++ s) = rep ++ replace pat rep s.
Proof.
  intro Hp. rewrite !replace_nonempty by exact Hp.
  destruct pat as [|a p]; [congruence |].
  assert (E : startswith (a :: p) (a :: p ++ s) = true)
    by (apply startswith_iff; exists s; reflexivity).
  assert (Hs : forall l : pystr, skipn (length l) (l ++ s) = s)
    by (induction l; simpl; auto).
  change ((a :: p) ++ s) with (a :: p ++ s).
  cbn [length replace_fuel]. rewrite E.
  cbn [skipn]. rewrite Hs. f_equal.
  apply (replace_fuel_enough (a :: p)); [congruence | rewrite length_app; lia | lia].
Qed.

Lemma replace_no_infix pat rep s : pat <> [] -> ~ infix pat s -> replace pat rep s = s.
Proof.
  intro Hp. induction s as [|c s IH]; intro Hn.
  - rewrite replace_nonempty by exact Hp. reflexivity.
  - rewrite replace_cons_skip; [| exact Hp |].
    + f_equal. apply IH. intros (x & y & ->). apply Hn. exists (c :: x), y. reflexivity.
    + destruct (startswith pat (c :: s)) eqn:E; [| reflexivity].
      exfalso. apply startswith_iff in E as [r E]. apply Hn. exists [], r. exact E.
Qed.

(** [s.replace(" ", "_")] maps each space to an underscore. *)
Lemma replace_space s :
  replace (lit " ") (lit "_") s = map (fun c => if c =? 32 then 95 else c) s.
Proof.
  induction s as [|c s IH]; [reflexivity |].
  destruct (c =? 32) eqn:E.
  - apply Nat.eqb_eq in E. subst c.
    change (32 :: s) with (lit " " ++ s). rewrite replace_match by discriminate.
    rewrite IH. reflexivity.
  - change (lit " ") with [32]. rewrite replace_cons_skip; [| discriminate |].
    + change [32] with (lit " "). rewrite IH. cbn [map]. rewrite E. reflexivity.
    + cbn [startswith]. rewrite andb_true_r, Nat.eqb_sym. exact E.
Qed.

(** The seed url of [ScrapeDrn.main] is the base, [/wiki/], and the page
    name with every space replaced by an underscore; it contains no space. *)
Theorem seed_url_no_space (page_name : pystr) :
  seed_url page_name =
    WIKI_BASE ++ lit "/wiki/" ++ map (fun c => if c =? 32 then 95 else c) page_name /\
  ~ In 32 (seed_url page_name).
Proof.
  unfold seed_url. rewrite replace_space. split; [reflexivity |].
  rewrite !in_app_iff, in_map_iff. intros [H | [H | (c & Hc & _)]].
  - vm_compute in H. lia.
  - vm_compute in H. lia.
  - destruct (c =? 32) eqn:E; [discriminate | apply Nat.eqb_neq in E; congruence].
Qed.

Lemma unquote_no_percent s : contains_ch 37 s = false -> unquote s = s.
Proof. intro H. unfold unquote. rewrite H. reflexivity. Qed.

Lemma contains_ch_app c a b : contains_ch c (a ++ b) = contains_ch c a || contains_ch c b.
Proof. unfold contains_ch. apply existsb_app. Qed.

Lemma infix_app_l p q s : infix p s -> infix p (q ++ s).
Proof. intros (x & y & ->). exists (q ++ x), y. rewrite app_assoc. reflexivity. Qed.

Lemma infix_app_r p q s : infix (p ++ q) s -> infix p s.
Proof. intros (x & y & ->). exists x, (q ++ y). rewrite <- !app_assoc. reflexivity. Qed.

Lemma wiki_prefix_split : FetchTalkpages.WIKI_PREFIX = WIKI_BASE ++ lit "/wiki/".
Proof. reflexivity. Qed.

(** Round trip: a url made of the wiki prefix, a title [t] and an optional
    [#anchor] splits back into [t] and the anchor, when [t] has no ['#'] and
    no ['%'], the anchor has no ['%'], and the prefix does not occur again. *)
Theorem split_title_and_anchor_roundtrip (t : pystr) (a : option pystr)
  (Hpre : ~ infix FetchTalkpages.WIKI_PREFIX (t ++ anchor_part a))
  (Hhash : contains_ch 35 t = false) (Hpct : contains_ch 37 t = false)
  (Hapct : forall x, a = Some x -> contains_ch 37 x = false) :
  FetchTalkpages.split_title_and_anchor (FetchTalkpages.WIKI_PREFIX ++ t ++ anchor_part a) = (t, a).
Proof.
  unfold FetchTalkpages.split_title_and_anchor.
  rewrite replace_match by discriminate. rewrite replace_no_infix by (discriminate || exact Hpre).
  destruct a as [x|]; cbn [anchor_part app].
  - assert (E : split_first 35 (t ++ 35 :: x) = Some (t, x))
      by (apply split_first_some; split; [reflexivity | exact Hhash]).
    rewrite E, !unquote_no_percent by auto. reflexivity.
  - rewrite app_nil_r.
    assert (E : split_first 35 t = None) by (apply split_first_none; exact Hhash).
    rewrite E, unquote_no_percent by exact Hpct. reflexivity.
Qed.

Lemma replace_wiki_base_skip body :
  ~ infix WIKI_BASE body ->
  replace WIKI_BASE [] (lit "/wiki/" ++ body) = lit "/wiki/" ++ body.
Proof.
  intro H.
  cbn [lit list_ascii_of_string map app].
  repeat (rewrite replace_cons_skip; [f_equal | discriminate | reflexivity]).
  - apply replace_no_infix; [discriminate | exact H].
Qed.

(** For a url made of the wiki prefix, a title [t] with no ['#'], no ['%']
    and no [/wiki/], and an optional [#anchor], where the base url does not
    occur after the prefix, the title scrape_drn.py requests and the title
    fetch_talkpages.py derives are both [t]. *)
Theorem url_title_agrees (t : pystr) (a : option pystr)
  (Hbase : ~ infix WIKI_BASE (t ++ anchor_part a))
  (Hwiki : ~ infix (lit "/wiki/") t)
  (Hhash : contains_ch 35 t = false) (Hpct : contains_ch 37 t = false) :
  ScrapeDrn.url_title (FetchTalkpages.WIKI_PREFIX ++ t ++ anchor_part a) = t /\
  link_title (FetchTalkpages.WIKI_PREFIX ++ t ++ anchor_part a) = t.
Proof.
  split.
  - unfold ScrapeDrn.url_title. rewrite wiki_prefix_split, <- app_assoc.
    rewrite replace_match by discriminate. rewrite replace_wiki_base_skip by exact Hbase.
    cbn [app].
    assert (Hw : contains_ch 35 (lit "/wiki/" ++ t) = false)
      by (rewrite contains_ch_app, Hhash; reflexivity).
    assert (Hp : replace (lit "/wiki/") [] (lit "/wiki/" ++ t) = t)
      by (rewrite replace_match by discriminate; apply replace_no_infix; [discriminate | exact Hwiki]).
    destruct a as [x|]; cbn [anchor_part].
    + assert (E : split_first 35 (lit "/wiki/" ++ t ++ 35 :: x) = Some (lit "/wiki/" ++ t, x))
        by (apply split_first_some; rewrite app_assoc; split; [reflexivity | exact Hw]).
      assert (C : contains_ch 35 (lit "/wiki/" ++ t ++ 35 :: x) = true)
        by (rewrite !contains_ch_app; cbn; rewrite orb_true_r; reflexivity).
      rewrite C, E, Hp. apply unquote_no_percent, Hpct.
    + rewrite app_nil_r, Hw, Hp. apply unquote_no_percent, Hpct.
  - unfold link_title.
    destruct a as [x|] eqn:Ea.
    + unfold FetchTalkpages.split_title_and_anchor.
      rewrite replace_match by discriminate.
      rewrite replace_no_infix; [| discriminate |].
      * assert (E : split_first 35 (t ++ 35 :: x) = Some (t, x))
          by (apply split_first_some; split; [reflexivity | exact Hhash]).
        cbn [anchor_part app]. rewrite E. apply unquote_no_percent, Hpct.
      * intro I. apply Hbase. rewrite wiki_prefix_split in I. exact (infix_app_r _ _ _ I).
    + unfold FetchTalkpages.split_title_and_anchor.
      rewrite replace_match by discriminate.
      rewrite replace_no_infix; [| discriminate |].
      * cbn [anchor_part app]. rewrite app_nil_r.
        assert (E : split_first 35 t = None) by (apply split_first_none; exact Hhash).
        rewrite E. apply unquote_no_percent, Hpct.
      * intro I. apply Hbase. rewrite wiki_prefix_split in I. exact (infix_app_r _ _ _ I).
Qed.

(** ** safe_filename *)

Lemma lstrip_ch_head ch l : hd_error (ScrapeDrn.lstrip_ch ch l) <> Some ch.
Proof.
  induction l as [|c l IH]; simpl; [discriminate |].
  destruct (c =? ch) eqn:E; [exact IH |]. simpl. intro H. injection H as ->.
  rewrite Nat.eqb_refl in E. discriminate.
Qed.

Lemma lstrip_ch_suffix ch l : exists p, l = p ++ ScrapeDrn.lstrip_ch ch l.
Proof.
  induction l as [|c l [p IH]]; simpl; [exists []; reflexivity |].
  destruct (c =? ch); [exists (c :: p); simpl; congruence | exists []; reflexivity].
Qed.

Lemma lstrip_ch_id ch l : hd_error l <> Some ch -> ScrapeDrn.lstrip_ch ch l = l.
Proof.
  destruct l as [|c l]; [reflexivity |]. simpl. intro H.
  destruct (c =? ch) eqn:E; [apply Nat.eqb_eq in E; congruence | reflexivity].
Qed.

(** [s.strip(ch)] leaves neither end on [ch], and is a piece of [s]. *)
Lemma strip_ch_ends ch l :
  let r := ScrapeDrn.strip_ch ch l in
  hd_error r <> Some ch /\ (forall p, r <> p ++ [ch]).
Proof.
  cbv zeta. unfold ScrapeDrn.strip_ch.
  set (l1 := ScrapeDrn.lstrip_ch ch l).
  destruct (lstrip_ch_suffix ch (rev l1)) as [p Hp].
  split.
  - assert (E : l1 = rev (ScrapeDrn.lstrip_ch ch (rev l1)) ++ rev p)
      by (rewrite <- rev_app_distr, <- Hp, rev_involutive; reflexivity).
    destruct (rev (ScrapeDrn.lstrip_ch ch (rev l1))) as [|c r] eqn:R; [discriminate |].
    simpl. intro H. injection H as ->.
    apply (lstrip_ch_head ch l). fold l1. rewrite E. reflexivity.
  - intros q Hq. apply (lstrip_ch_head ch (rev l1)).
    rewrite <- (rev_involutive (ScrapeDrn.lstrip_ch ch (rev l1))), Hq, rev_app_distr.
    reflexivity.
Qed.

Lemma safe_filename_ends (is_alnum is_space : nat -> bool) (s : pystr) :
  let r := ScrapeDrn.safe_filename is_alnum is_space s in
  hd_error r <> Some 95 /\ (length r < 240 -> forall p, r <> p ++ [95]).
Proof.
  cbv zeta. unfold ScrapeDrn.safe_filename. cbv zeta.
  set (R := ScrapeDrn.strip_ch 95 _).
  destruct (strip_ch_ends 95 (ScrapeDrn.sub_spaces is_space false
                                (filter (ScrapeDrn.keep_char is_alnum is_space) s)))
    as [H1 H2]. fold R in H1, H2.
  split.
  - destruct R as [|c R']; [discriminate | exact H1].
  - intro Hl. rewrite length_firstn in Hl.
    rewrite firstn_all2 by lia. exact H2.
Qed.

(** Every filtered character survives the filter: [filter] is the identity. *)
Lemma filter_id {A} (f : A -> bool) l : Forall (fun x => f x = true) l -> filter f l = l.
Proof. induction 1 as [|x l Hx _ IH]; simpl; [reflexivity | rewrite Hx, IH; reflexivity]. Qed.

Lemma sub_spaces_id is_space b l :
  Forall (fun c => is_space c = false) l -> ScrapeDrn.sub_spaces is_space b l = l.
Proof.
  intro F. revert b. induction F as [|c l Hc _ IH]; intro b; simpl; [reflexivity |].
  rewrite Hc, IH. reflexivity.
Qed.

Lemma safe_filename_chars (is_alnum is_space : nat -> bool) (H95 : is_space 95 = false) s :
  Forall (filename_char is_alnum is_space) (ScrapeDrn.safe_filename is_alnum is_space s).
Proof.
  unfold ScrapeDrn.safe_filename.
  apply firstn_forall, strip_ch_forall, sub_spaces_chars; [exact H95 |].
  apply filter_keep_char.
Qed.

Lemma sub_spaces_all_space is_space b l :
  Forall (fun c => is_space c = true) l ->
  ScrapeDrn.sub_spaces is_space b l = if b then [] else match l with [] => [] | _ => [95] end.
Proof.
  intro F. revert b. induction F as [|c l Hc _ IH]; intro b; simpl; [destruct b; reflexivity |].
  rewrite Hc, IH. destruct b; reflexivity.
Qed.

(** [safe_filename] never starts with an underscore, and it ends with one
    only if it has 240 characters (a cut by [[:240]] after the strip). *)
Theorem safe_filename_underscore_ends (is_alnum is_space : nat -> bool) (s : pystr) :
  let r := ScrapeDrn.safe_filename is_alnum is_space s in
  hd_error r <> Some 95 /\ (length r < 240 -> forall p, r <> p ++ [95]).
Proof. exact (safe_filename_ends is_alnum is_space s). Qed.

(** When its result does not end with an underscore (and ['_'] is not
    whitespace), applying [safe_filename] again changes nothing. *)
Theorem safe_filename_idempotent (is_alnum is_space : nat -> bool) (H95 : is_space 95 = false)
  (s : pystr) (Hend : forall p, ScrapeDrn.safe_filename is_alnum is_space s <> p ++ [95]) :
  ScrapeDrn.safe_filename is_alnum is_space (ScrapeDrn.safe_filename is_alnum is_space s)
  = ScrapeDrn.safe_filename is_alnum is_space s.
Proof.
  set (r := ScrapeDrn.safe_filename is_alnum is_space s) in *.
  pose proof (safe_filename_chars is_alnum is_space H95 s) as F. fold r in F.
  destruct (safe_filename_ends is_alnum is_space s) as [Hhd _]. fold r in Hhd.
  assert (Hlen : length r <= 240)
    by (unfold r, ScrapeDrn.safe_filename; rewrite length_firstn; lia).
  unfold ScrapeDrn.safe_filename at 1. cbv zeta.
  rewrite filter_id.
  2:{ eapply Forall_impl; [| exact F]. intros c [_ Hc].
      unfold ScrapeDrn.keep_char, ScrapeDrn.is_word.
      apply orb_true_iff. destruct Hc as [Hc | [-> | ->]].
      - left. rewrite Hc. reflexivity.
      - left. apply orb_true_iff; left. apply orb_true_iff; right. reflexivity.
      - right. reflexivity. }
  rewrite sub_spaces_id by (eapply Forall_impl; [| exact F]; intros c [Hc _]; exact Hc).
  unfold ScrapeDrn.strip_ch. rewrite (lstrip_ch_id 95 r Hhd).
  rewrite lstrip_ch_id, rev_involutive.
  - apply firstn_all2. exact Hlen.
  - destruct (rev r) as [|c q] eqn:R; [discriminate |]. simpl. intro H. injection H as ->.
    apply (Hend (rev q)). rewrite <- (rev_involutive r), R. reflexivity.
Qed.

(** A string with no word character, underscore or hyphen (only
    whitespace and punctuation) gives the empty file name. *)
Theorem safe_filename_empty (is_alnum is_space : nat -> bool) (s : pystr)
  (H : forall c, In c s -> is_alnum c = false /\ c <> 95 /\ c <> 45) :
  ScrapeDrn.safe_filename is_alnum is_space s = [].
Proof.
  unfold ScrapeDrn.safe_filename. cbv zeta.
  rewrite sub_spaces_all_space.
  - destruct (filter _ s); reflexivity.
  - apply Forall_forall. intros c Hc. apply filter_In in Hc as [Hin Hk].
    destruct (H c Hin) as (Ha & H1 & H2).
    unfold ScrapeDrn.keep_char, ScrapeDrn.is_word in Hk. rewrite Ha in Hk.
    apply Nat.eqb_neq in H1, H2. rewrite H1, H2 in Hk. simpl in Hk.
    rewrite orb_false_r in Hk. exact Hk.
Qed.

(** ** Retries that end in a response *)

Lemma get_html_success u : forall k a n w d,
  k < n ->
  (forall i, i < k -> html_at w (ncalls w + i) u = None) ->
  html_at w (ncalls w + k) u = Some d ->
  ScrapeDrn.get_html_attempts u a n w =
    (inl d, mkWorld (html_at w) (api_at w) (ncalls w + S k)
              (trace w ++ flat_map (html_fail_block u) (seq a k) ++ [EHtml u])).
Proof.
  induction k as [|k IH]; intros a n w d Hk Hf Hs; (destruct n as [|n]; [lia |]).
  - cbn [ScrapeDrn.get_html_attempts]. unfold bind at 1, html_get.
    rewrite Nat.add_0_r in Hs. rewrite Hs. unfold ret. destruct w; simpl.
    rewrite Nat.add_1_r. reflexivity.
  - cbn [ScrapeDrn.get_html_attempts]. unfold bind at 1, html_get.
    rewrite <- (Nat.add_0_r (ncalls w)), Hf by lia. rewrite Nat.add_0_r.
    unfold bind, log, sleep, emit. cbn.
    rewrite (IH (S a) n) with (d := d); [| lia | |].
    + cbn. f_equal. f_equal; [lia |]. unfold html_fail_block. rewrite <- !app_assoc. reflexivity.
    + intros i Hi. cbn. replace (S (ncalls w + i)) with (ncalls w + S i) by lia. apply Hf. lia.
    + cbn. replace (S (ncalls w + k)) with (ncalls w + S k) by lia. exact Hs.
Qed.

Lemma fetch_attempts_success t : forall k a n w res,
  k < n ->
  (forall i, i < k -> api_at w (ncalls w + i) t = ApiFail) ->
  parse_api (api_at w (ncalls w + k) t) = Some res ->
  FetchTalkpages.fetch_attempts t a n w =
    (inl res, mkWorld (html_at w) (api_at w) (ncalls w + S k)
              (trace w ++ flat_map (fail_block t) (seq a k) ++ [EApi t])).
Proof.
  induction k as [|k IH]; intros a n w res Hk Hf Hs; (destruct n as [|n]; [lia |]).
  - cbn [FetchTalkpages.fetch_attempts]. unfold bind at 1, api_get.
    rewrite Nat.add_0_r in Hs. rewrite Hs. unfold ret. destruct w; simpl.
    rewrite Nat.add_1_r. reflexivity.
  - cbn [FetchTalkpages.fetch_attempts]. unfold bind at 1, api_get.
    rewrite <- (Nat.add_0_r (ncalls w)), Hf by lia. rewrite Nat.add_0_r.
    unfold bind, log, sleep, emit. cbn.
    rewrite (IH (S a) n) with (res := res); [| lia | |].
    + cbn. f_equal. f_equal; [lia |]. unfold fail_block. rewrite <- !app_assoc. reflexivity.
    + intros i Hi. cbn. replace (S (ncalls w + i)) with (ncalls w + S i) by lia. apply Hf. lia.
    + cbn. replace (S (ncalls w + k)) with (ncalls w + S k) by lia. exact Hs.
Qed.

(** When the first [k] of [retries] page requests fail and request [k+1]
    succeeds, [get_html] returns that page after exactly [k+1] requests, with
    a warning and a sleep of [2 * attempt] seconds after each failure. *)
Theorem get_html_first_success (u : pystr) (retries k : nat) (w : world) (d : doc)
  (Hk : k < retries)
  (Hfail : forall i, i < k -> html_at w (ncalls w + i) u = None)
  (Hok : html_at w (ncalls w + k) u = Some d) :
  exists w',
    ScrapeDrn.get_html_r u retries w = (inl d, w') /\
    ncalls w' = ncalls w + S k /\
    trace w' = trace w ++ flat_map (html_fail_block u) (seq 0 k) ++ [EHtml u].
Proof.
  unfold ScrapeDrn.get_html_r. rewrite (get_html_success u k 0 retries w d Hk Hfail Hok).
  eexists. split; [reflexivity | split; reflexivity].
Qed.

(** When the first [k] of [retries] API requests fail and request [k+1]
    gets an answer, the fetch returns what that answer gives (the page data,
    or [None] for an absent page) after exactly [k+1] requests: an absent
    page is not retried. *)
Theorem fetch_first_response (t : pystr) (retries k : nat) (w : world) (res : option page_data)
  (Hk : k < retries)
  (Hfail : forall i, i < k -> api_at w (ncalls w + i) t = ApiFail)
  (Hresp : parse_api (api_at w (ncalls w + k) t) = Some res) :
  exists w',
    FetchTalkpages.fetch_wikitext_via_api_r t retries w = (inl res, w') /\
    ncalls w' = ncalls w + S k /\
    trace w' = trace w ++ flat_map (fail_block t) (seq 0 k) ++ [EApi t].
Proof.
  unfold FetchTalkpages.fetch_wikitext_via_api_r.
  rewrite (fetch_attempts_success t k 0 retries w res Hk Hfail Hresp).
  eexists. split; [reflexivity | split; reflexivity].
Qed.

(** A title not yet cached: the fetch's outcome is returned, a success is
    cached and followed by one sleep of [SLEEP_SECONDS], and an absent page
    is followed by a warning and no sleep. *)
Theorem resolve_miss_outcome (c : FetchTalkpages.cache) (t : pystr) (k : nat) (w : world)
  (res : option page_data)
  (Hmiss : FetchTalkpages.cache_lookup t c = None) (Hk : k < 3)
  (Hfail : forall i, i < k -> api_at w (ncalls w + i) t = ApiFail)
  (Hresp : parse_api (api_at w (ncalls w + k) t) = Some res) :
  exists w',
    FetchTalkpages.resolve c t w =
      (inl (res, match res with Some d => (t, d) :: c | None => c end), w') /\
    trace w' = trace w ++ [ELog INFO] ++ flat_map (fail_block t) (seq 0 k) ++ [EApi t] ++
               match res with
               | Some _ => [ESleep SLEEP_SECONDS]
               | None => [ELog WARN]
               end.
Proof.
  unfold FetchTalkpages.resolve. rewrite Hmiss.
  unfold FetchTalkpages.fetch_wikitext_via_api, FetchTalkpages.fetch_wikitext_via_api_r.
  unfold bind at 1, log at 1, emit at 1. unfold bind at 1.
  rewrite (fetch_attempts_success t k 0 3 (add_event (ELog INFO) w) res Hk);
    [| destruct w; exact Hfail | destruct w; exact Hresp].
  destruct res as [d|]; unfold_M; eexists; (split; [reflexivity |]); destruct w; cbn;
    rewrite <- !app_assoc; reflexivity.
Qed.

(** ** The loop of scrape_drn.py *)

Lemma fetch_one_spec u w :
  ScrapeDrn.fetch_one u w =
    (inl (one_outcome u (api_at w (ncalls w) (ScrapeDrn.url_title u))),
     mkWorld (html_at w) (api_at w) (S (ncalls w))
       (trace w ++ [ELog INFO; EApi (ScrapeDrn.url_title u)] ++
        one_log (api_at w (ncalls w) (ScrapeDrn.url_title u)) ++ [ESleep SLEEP_SECONDS])).
Proof.
  unfold ScrapeDrn.fetch_one, ScrapeDrn.fetch_wikitext_via_api. unfold_M.
  destruct w as [h a n tr]; cbn.
  destruct (a n (ScrapeDrn.url_title u)); unfold add_event, next_call; cbn; rewrite <- ?app_assoc; reflexivity.
Qed.

(** One iteration of scrape_drn.py's loop makes one API request, never
    retried; it prints an error for a failed request and a warning for an
    absent page, writes a record only for a revision, and sleeps
    [SLEEP_SECONDS] once whatever the outcome. *)
Theorem fetch_one_outcome (u : pystr) (w : world) :
  let t := ScrapeDrn.url_title u in
  let r := api_at w (ncalls w) t in
  ScrapeDrn.fetch_one u w =
    (inl (match r with
          | ApiRev c ts =>
              Some (ScrapeDrn.mkSRecord t u (match c with Some x => x | None => [] end) ts)
          | _ => None
          end),
     mkWorld (html_at w) (api_at w) (S (ncalls w))
       (trace w ++ [ELog INFO; EApi t] ++
        match r with
        | ApiFail => [ELog ERROR]
        | ApiRev _ _ => []
        | _ => [ELog WARN]
        end ++ [ESleep SLEEP_SECONDS])).
Proof. exact (fetch_one_spec u w). Qed.

(** scrape_drn.py's loop makes one request and one sleep per link, fetches
    no page, and each record it writes carries a link of the input and the
    title computed from that link. *)
Theorem fetch_loop_sleeps_records (urls : list pystr) (w : world) :
  exists recs new w',
    ScrapeDrn.fetch_loop urls w = (inl recs, w') /\
    trace w' = trace w ++ new /\
    ncalls w' = ncalls w + length urls /\
    sleeps new = repeat SLEEP_SECONDS (length urls) /\
    html_requests new = [] /\
    Forall (fun r => ScrapeDrn.title r = ScrapeDrn.url_title (ScrapeDrn.url r) /\
                     In (ScrapeDrn.url r) urls) recs.
Proof.
  revert w. induction urls as [|u urls IH]; intro w.
  - exists [], [], w. rewrite app_nil_r, Nat.add_0_r. repeat split. constructor.
  - pose proof (fetch_one_spec u w) as H1.
    set (w1 := mkWorld _ _ _ _) in H1.
    destruct (IH w1) as (recs & new2 & w2 & H2 & T2 & N2 & S2 & R2 & F2).
    cbn [ScrapeDrn.fetch_loop]. unfold bind. rewrite H1, H2.
    eexists _, (_ ++ new2), w2. split; [reflexivity |].
    rewrite T2. split; [unfold w1; cbn [trace]; rewrite <- app_assoc; reflexivity |].
    split; [rewrite N2; unfold w1; cbn; lia |].
    autorewrite with trace_db. rewrite S2, R2.
    split; [destruct (api_at w (ncalls w) (ScrapeDrn.url_title u)); reflexivity |].
    split; [destruct (api_at w (ncalls w) (ScrapeDrn.url_title u)); reflexivity |].
    assert (F2' : Forall (fun r => ScrapeDrn.title r = ScrapeDrn.url_title (ScrapeDrn.url r) /\
                                   In (ScrapeDrn.url r) (u :: urls)) recs)
      by (eapply Forall_impl; [| exact F2]; intros r [Ht Hi]; split; [exact Ht | right; exact Hi]).
    unfold one_outcome. destruct (api_at w (ncalls w) (ScrapeDrn.url_title u)); try exact F2'.
    constructor; [split; [reflexivity | left; reflexivity] | exact F2'].
Qed.

(** ** urljoin and the extractor *)

Lemma urljoin_wiki_base href : exists r, urljoin_wiki href = WIKI_BASE ++ 47 :: r.
Proof.
  unfold urljoin_wiki.
  destruct (match split_first 35 _ with Some (a, b) => (a, b) | None => _ end) as [u1 frag].
  destruct (match split_first 63 u1 with Some (a, b) => (a, b) | None => _ end) as [u2 query].
  destruct (if contains_ch 59 u2 then splitparams u2 else (u2, [])) as [path params].
  set (p0 := match join 47 _ with [] => lit "/" | p => p end).
  set (p1 := match params with [] => p0 | _ => p0 ++ 59 :: params end).
  assert (Hp : exists r, (if startswith (lit "/") p1 then p1 else 47 :: p1) = 47 :: r).
  { destruct (startswith (lit "/") p1) eqn:E; [| eauto].
    apply startswith_iff in E as [r E]. exists r. exact E. }
  destruct Hp as [r Hp]. rewrite Hp.
  destruct query as [|q qs]; destruct frag as [|f fs].
  - exists r. reflexivity.
  - exists (r ++ 35 :: f :: fs). reflexivity.
  - exists (r ++ 63 :: q :: qs). reflexivity.
  - exists ((r ++ 63 :: q :: qs) ++ 35 :: f :: fs). reflexivity.
Qed.

(** Every extracted link starts with [https://en.wikipedia.org/], whatever
    the href. *)
Theorem extracted_links_on_base (html : doc) (u : pystr) :
  In u (extract_talk_links_from_html html) -> exists r, u = WIKI_BASE ++ 47 :: r.
Proof.
  intro H. unfold extract_talk_links_from_html in H.
  apply (proj2 (sorted_set_spec _) u), in_map_iff in H as (h & <- & _).
  apply urljoin_wiki_base.
Qed.

Lemma split_all_none c s : contains_ch c s = false -> split_all c s = [s].
Proof.
  unfold contains_ch. induction s as [|x s IH]; simpl; [reflexivity |].
  rewrite orb_false_iff, Nat.eqb_sym. intros [E H]. rewrite E, IH by exact H. reflexivity.
Qed.

Lemma split_all_sep c a s : contains_ch c a = false -> split_all c (a ++ c :: s) = a :: split_all c s.
Proof.
  unfold contains_ch. induction a as [|x a IH]; simpl.
  - rewrite Nat.eqb_refl. reflexivity.
  - rewrite orb_false_iff, Nat.eqb_sym. intros [E H]. rewrite E, IH by exact H. reflexivity.
Qed.

Lemma str_eqb_false a b : a <> b -> str_eqb a b = false.
Proof. intro H. destruct (str_eqb a b) eqn:E; [apply str_eqb_true in E; congruence | reflexivity]. Qed.

Lemma lit_talk_x x : lit "Talk:" ++ x = 84 :: 97 :: 108 :: 107 :: 58 :: x.
Proof. reflexivity. Qed.

Lemma remove_unsafe_id s :
  (forall c, In c s -> c <> 9 /\ c <> 10 /\ c <> 13) -> remove_unsafe s = s.
Proof.
  intro H. unfold remove_unsafe. apply filter_id, Forall_forall. intros c Hc.
  destruct (H c Hc) as (H1 & H2 & H3).
  apply Nat.eqb_neq in H1, H2, H3. rewrite H1, H2, H3. reflexivity.
Qed.

Lemma contains_ch_false c s : ~ In c s -> contains_ch c s = false.
Proof.
  intro H. unfold contains_ch. destruct (existsb (Nat.eqb c) s) eqn:E; [| reflexivity].
  apply existsb_exists in E as (y & Hy & Ey). apply Nat.eqb_eq in Ey. subst. contradiction.
Qed.

(** A talk href with no ['/'], ['#'], ['?'], [';'], tab, LF or CR after
    [/wiki/Talk:], and an optional fragment without tab, LF or CR, resolves
    to the base followed by the href, except that an empty fragment is
    dropped together with its ['#']. *)
Theorem urljoin_plain_talk_href (x : pystr) (frag : option pystr)
  (Hx : forall c, In c x -> ~ In c [47; 35; 63; 59; 9; 10; 13])
  (Hf : forall y c, frag = Some y -> In c y -> ~ In c [9; 10; 13]) :
  urljoin_wiki (TALK_PREFIX ++ x ++ anchor_part frag) =
    WIKI_BASE ++ TALK_PREFIX ++ x ++
      match frag with Some [] => [] | _ => anchor_part frag end.
Proof.
  assert (Hin : forall c, In c [47; 35; 63; 59; 9; 10; 13] -> ~ In c x)
    by (intros c H1 H2; exact (Hx c H2 H1)).
  assert (N35 : contains_ch 35 (TALK_PREFIX ++ x) = false).
  { rewrite contains_ch_app, (contains_ch_false 35 x) by (apply Hin; simpl; tauto). reflexivity. }
  assert (N63 : contains_ch 63 (TALK_PREFIX ++ x) = false).
  { rewrite contains_ch_app, (contains_ch_false 63 x) by (apply Hin; simpl; tauto). reflexivity. }
  assert (N59 : contains_ch 59 (TALK_PREFIX ++ x) = false).
  { rewrite contains_ch_app, (contains_ch_false 59 x) by (apply Hin; simpl; tauto). reflexivity. }
  assert (N47 : contains_ch 47 (lit "Talk:" ++ x) = false).
  { rewrite contains_ch_app, (contains_ch_false 47 x) by (apply Hin; simpl; tauto). reflexivity. }
  assert (Hseg : split_all 47 (TALK_PREFIX ++ x) = [[]; lit "wiki"; lit "Talk:" ++ x]).
  { change (TALK_PREFIX ++ x) with ([] ++ 47 :: lit "wiki" ++ 47 :: lit "Talk:" ++ x).
    rewrite split_all_sep by reflexivity. rewrite split_all_sep by reflexivity.
    rewrite split_all_none by exact N47. reflexivity. }
  assert (Hdd : str_eqb (lit "Talk:" ++ x) (lit "..") = false)
    by (apply str_eqb_false; rewrite lit_talk_x; discriminate).
  assert (Hd : str_eqb (lit "Talk:" ++ x) (lit ".") = false)
    by (apply str_eqb_false; rewrite lit_talk_x; discriminate).
  assert (Hu : remove_unsafe (lstrip_c0 (TALK_PREFIX ++ x ++ anchor_part frag))
               = TALK_PREFIX ++ x ++ anchor_part frag).
  { change (lstrip_c0 (TALK_PREFIX ++ x ++ anchor_part frag))
      with (TALK_PREFIX ++ x ++ anchor_part frag).
    apply remove_unsafe_id. intros c Hc.
    apply in_app_iff in Hc as [Hc | Hc]; [vm_compute in Hc; intuition lia |].
    apply in_app_iff in Hc as [Hc | Hc].
    - pose proof (Hx c Hc) as Hn. simpl in Hn. intuition.
    - destruct frag as [y|]; simpl in Hc; [| contradiction].
      destruct Hc as [<- | Hc]; [lia |].
      pose proof (Hf y c eq_refl Hc) as Hn. simpl in Hn. intuition. }
  unfold urljoin_wiki. cbv zeta. rewrite Hu.
  destruct frag as [y|]; cbn [anchor_part].
  - rewrite app_assoc, (proj2 (split_first_some 35 _ _ _) (conj eq_refl N35)).
    cbn beta iota. rewrite (proj2 (split_first_none 63 _) N63), N59, Hseg.
    cbn [resolve_segments last_seg last]. rewrite Hdd, Hd.
    destruct y; [rewrite (app_nil_r x) |]; reflexivity.
  - rewrite app_nil_r, (proj2 (split_first_none 35 _) N35).
    cbn beta iota. rewrite (proj2 (split_first_none 63 _) N63), N59, Hseg.
    cbn [resolve_segments last_seg last]. rewrite Hdd, Hd.
    reflexivity.
Qed.

Lemma sorted_unique : forall l1 l2,
  StronglySorted str_lt l1 -> StronglySorted str_lt l2 ->
  (forall x, In x l1 <-> In x l2) -> l1 = l2.
Proof.
  induction l1 as [|a l1 IH]; intros [|b l2] S1 S2 H.
  - reflexivity.
  - exfalso. apply (proj2 (H b)). left. reflexivity.
  - exfalso. apply (proj1 (H a)). left. reflexivity.
  - inversion S1 as [| ? ? S1' F1]; inversion S2 as [| ? ? S2' F2]; subst.
    rewrite Forall_forall in F1, F2.
    assert (Eab : a = b).
    { destruct (proj1 (H a) (or_introl eq_refl)) as [E | Ha]; [congruence |].
      destruct (proj2 (H b) (or_introl eq_refl)) as [E | Hb]; [congruence |].
      exfalso. apply (str_lt_irrefl a). exact (str_lt_trans _ _ _ (F1 b Hb) (F2 a Ha)). }
    subst b. f_equal. apply IH; [exact S1' | exact S2' |].
    intro x. split; intro Hx.
    + destruct (proj1 (H x) (or_intror Hx)) as [E | Hx']; [subst x | exact Hx'].
      exfalso. exact (str_lt_irrefl a (F1 a Hx)).
    + destruct (proj2 (H x) (or_intror Hx)) as [E | Hx']; [subst x | exact Hx'].
      exfalso. exact (str_lt_irrefl a (F2 a Hx)).
Qed.

(** The extracted links depend only on the set of hrefs of the page: not
    on their order, their repetitions or anchors without an href. *)
Theorem extract_depends_on_href_set (d1 d2 : doc)
  (Hsame : forall h, In h (hrefs d1) <-> In h (hrefs d2)) :
  extract_talk_links_from_html d1 = extract_talk_links_from_html d2.
Proof.
  unfold extract_talk_links_from_html.
  destruct (sorted_set_spec (map urljoin_wiki (filter (startswith TALK_PREFIX) (hrefs d1))))
    as [S1 M1].
  destruct (sorted_set_spec (map urljoin_wiki (filter (startswith TALK_PREFIX) (hrefs d2))))
    as [S2 M2].
  apply sorted_unique; [exact S1 | exact S2 |].
  intro x. rewrite M1, M2, !in_map_iff.
  split; intros (h & Eh & Hh); exists h; split; try exact Eh;
    apply filter_In in Hh as [Hh Hp]; apply filter_In; split; try exact Hp; apply Hsame; exact Hh.
Qed.

(** ** The cache of fetch_talkpages.py when every page is present *)

Lemma filter_filter_and {A} (f g : A -> bool) l :
  filter f (filter g l) = filter (fun x => f x && g x) l.
Proof.
  induction l as [|x l IH]; simpl; [reflexivity |].
  destruct (g x) eqn:G, (f x) eqn:F; simpl; rewrite ?F, ?IH; reflexivity.
Qed.

Lemma fresh_titles_dedup : forall ts seen,
  fresh_titles seen ts =
    filter (fun y => negb (existsb (str_eqb y) seen)) (dedup_first_occurrence ts).
Proof.
  induction ts as [|t ts IH]; intro seen; [reflexivity |].
  cbn [fresh_titles dedup_first_occurrence filter].
  rewrite !IH, filter_filter_and.
  destruct (existsb (str_eqb t) seen) eqn:E; simpl.
  - apply filter_ext. intro y.
    destruct (str_eqb y t) eqn:Ey; simpl; [| rewrite andb_true_r; reflexivity].
    apply str_eqb_true in Ey. subst y. rewrite E. reflexivity.
  - f_equal. apply filter_ext. intro y. simpl.
    rewrite negb_orb, andb_comm. reflexivity.
Qed.

Lemma cache_lookup_none_iff t c :
  FetchTalkpages.cache_lookup t c = None <-> existsb (str_eqb t) (map fst c) = false.
Proof.
  induction c as [|[k d] c IH]; simpl; [tauto |].
  destruct (str_eqb t k); simpl; [split; discriminate | exact IH].
Qed.

Lemma resolve_miss_present c t w c0 ts :
  FetchTalkpages.cache_lookup t c = None ->
  api_at w (ncalls w) t = ApiRev c0 ts ->
  let d := mkPage (match c0 with Some x => x | None => [] end) ts in
  FetchTalkpages.resolve c t w =
    (inl (Some d, (t, d) :: c),
     mkWorld (html_at w) (api_at w) (S (ncalls w))
       (trace w ++ [ELog INFO; EApi t; ESleep SLEEP_SECONDS])).
Proof.
  intros Hm Hr. cbv zeta. unfold FetchTalkpages.resolve. rewrite Hm.
  unfold FetchTalkpages.fetch_wikitext_via_api, FetchTalkpages.fetch_wikitext_via_api_r.
  unfold bind at 1, log at 1, emit at 1. unfold bind at 1.
  rewrite (fetch_attempts_success t 0 0 3 (add_event (ELog INFO) w)
             (Some (mkPage (match c0 with Some x => x | None => [] end) ts)));
    [| lia | intros; lia | destruct w; simpl in *; rewrite Nat.add_0_r, Hr; reflexivity].
  unfold_M. unfold add_event. destruct w; cbn. rewrite Nat.add_1_r, <- !app_assoc. reflexivity.
Qed.

Lemma main_loop_all_present : forall urls c w,
  (forall k t, is_rev (api_at w k t)) ->
  exists recs new w',
    FetchTalkpages.main_loop c urls w = (inl recs, w') /\
    trace w' = trace w ++ new /\
    api_at w' = api_at w /\
    api_requests new = fresh_titles (map fst c) (map link_title urls) /\
    sleeps new = repeat SLEEP_SECONDS (length (fresh_titles (map fst c) (map link_title urls))) /\
    html_requests new = [] /\
    length recs = length urls.
Proof.
  induction urls as [|u urls IH]; intros c w Hrev.
  - exists [], [], w. rewrite app_nil_r. repeat split.
  - cbn [FetchTalkpages.main_loop map fresh_titles].
    destruct (FetchTalkpages.split_title_and_anchor u) as [t a] eqn:Es.
    assert (Lt : link_title u = t) by (unfold link_title; rewrite Es; reflexivity).
    rewrite Lt.
    destruct (FetchTalkpages.cache_lookup t c) as [d|] eqn:E.
    + assert (Ex : existsb (str_eqb t) (map fst c) = true)
        by (destruct (existsb (str_eqb t) (map fst c)) eqn:X; [reflexivity |];
            apply cache_lookup_none_iff in X; congruence).
      rewrite Ex. unfold bind at 1. rewrite (resolve_hit c t d w E).
      destruct (IH c w Hrev) as (recs & new & w' & H1 & T1 & A1 & R1 & S1 & H1' & L1).
      unfold bind. rewrite H1. eexists _, new, w'. split; [reflexivity |].
      repeat split; try assumption. simpl. rewrite L1. reflexivity.
    + assert (Ex : existsb (str_eqb t) (map fst c) = false) by (apply cache_lookup_none_iff, E).
      rewrite Ex.
      destruct (Hrev (ncalls w) t) as (c0 & ts & Hr).
      unfold bind at 1. rewrite (resolve_miss_present c t w c0 ts E Hr). cbv zeta.
      set (w1 := mkWorld _ _ _ _).
      destruct (IH ((t, mkPage (match c0 with Some x => x | None => [] end) ts) :: c) w1 Hrev)
        as (recs & new & w' & H1 & T1 & A1 & R1 & S1 & H1' & L1).
      unfold bind. rewrite H1.
      eexists _, ([ELog INFO; EApi t; ESleep SLEEP_SECONDS] ++ new), w'.
      split; [reflexivity |].
      split; [rewrite T1; unfold w1; cbn [trace]; rewrite <- app_assoc; reflexivity |].
      split; [exact A1 |].
      autorewrite with trace_db. rewrite R1, S1, H1'. cbn [map fst] in *.
      repeat split. simpl. rewrite L1. reflexivity.
Qed.

(** When every API answer carries a revision, fetch_talkpages.py requests
    each distinct title once, in order of first occurrence, sleeps once per
    request, fetches no page, and writes one record per link. *)
Theorem fetch_talkpages_all_present (urls : list pystr) (w : world)
  (Hrev : forall k t, exists c ts, api_at w k t = ApiRev c ts) :
  exists recs new w',
    FetchTalkpages.main urls w = (inl recs, w') /\
    trace w' = trace w ++ new /\
    api_requests new = dedup_first_occurrence (map link_title urls) /\
    sleeps new = repeat SLEEP_SECONDS (length (dedup_first_occurrence (map link_title urls))) /\
    html_requests new = [] /\
    length recs = length urls.
Proof.
  unfold FetchTalkpages.main. unfold bind at 1, log at 1, emit at 1.
  destruct (main_loop_all_present urls [] (add_event (ELog INFO) w))
    as (recs & new & w' & H1 & T1 & _ & R1 & S1 & H1' & L1);
    [destruct w; exact Hrev |].
  unfold bind. rewrite H1. unfold_M.
  eexists recs, ([ELog INFO] ++ new ++ [ELog INFO]), _. split; [reflexivity |].
  rewrite fresh_titles_dedup in R1, S1. cbn [map] in R1, S1.
  rewrite filter_true in R1, S1 by reflexivity.
  split; [cbn; rewrite T1, add_event_trace, <- !app_assoc; reflexivity |].
  autorewrite with trace_db. rewrite R1, S1, H1'. repeat split. exact L1.
Qed.

(** ** Witnesses *)

Lemma infixb_unfold p s :
  infixb p s = startswith p s || match s with [] => false | _ :: s' => infixb p s' end.
Proof. destruct s; reflexivity. Qed.

Lemma infixb_false p s : infixb p s = false -> ~ infix p s.
Proof.
  intros H (x & y & ->). revert H. induction x as [|c x IH]; simpl; intro H.
  - rewrite infixb_unfold in H. apply orb_false_iff in H as [H _].
    assert (E : startswith p (p ++ y) = true) by (apply startswith_iff; eauto). congruence.
  - apply orb_false_iff in H as [_ H]. exact (IH H).
Qed.

Lemma not_in_check (x l : list nat) :
  forallb (fun c => negb (existsb (Nat.eqb c) l)) x = true -> forall c, In c x -> ~ In c l.
Proof.
  intros H c Hc Hl. rewrite forallb_forall in H. specialize (H c Hc).
  assert (E : existsb (Nat.eqb c) l = true) by (apply existsb_exists; exists c; split; [exact Hl | apply Nat.eqb_refl]).
  rewrite E in H. discriminate.
Qed.

Lemma not_ends_with (l : list nat) c : last l 0 <> c -> forall p, l <> p ++ [c].
Proof. intros H p E. subst l. rewrite last_last in H. congruence. Qed.

Lemma split_title_and_anchor_roundtrip_witness :
  FetchTalkpages.split_title_and_anchor
    (FetchTalkpages.WIKI_PREFIX ++ lit "Talk:Foo_bar" ++ anchor_part (Some (lit "Sec#2")))
  = (lit "Talk:Foo_bar", Some (lit "Sec#2")).
Proof.
  apply split_title_and_anchor_roundtrip.
  - apply infixb_false. vm_compute. reflexivity.
  - vm_compute. reflexivity.
  - vm_compute. reflexivity.
  - intros x E. injection E as <-. vm_compute. reflexivity.
Defined.

Lemma url_title_agrees_witness :
  ScrapeDrn.url_title (FetchTalkpages.WIKI_PREFIX ++ lit "Talk:Foo_bar" ++ anchor_part None)
    = lit "Talk:Foo_bar" /\
  link_title (FetchTalkpages.WIKI_PREFIX ++ lit "Talk:Foo_bar" ++ anchor_part None)
    = lit "Talk:Foo_bar".
Proof.
  apply url_title_agrees.
  - apply infixb_false. vm_compute. reflexivity.
  - apply infixb_false. vm_compute. reflexivity.
  - vm_compute. reflexivity.
  - vm_compute. reflexivity.
Defined.

Lemma safe_filename_idempotent_witness :
  ScrapeDrn.safe_filename ascii_alnum ascii_space
    (ScrapeDrn.safe_filename ascii_alnum ascii_space (lit " a  b!"))
  = ScrapeDrn.safe_filename ascii_alnum ascii_space (lit " a  b!").
Proof.
  apply safe_filename_idempotent; [reflexivity |].
  apply not_ends_with. vm_compute. discriminate.
Defined.

Lemma safe_filename_empty_witness :
  ScrapeDrn.safe_filename ascii_alnum ascii_space (lit " ?! ") = [].
Proof.
  apply safe_filename_empty. intros c Hc. cbn in Hc.
  repeat (destruct Hc as [<- | Hc]; [split; [reflexivity | split; discriminate] |]).
  contradiction.
Defined.

Lemma get_html_first_success_witness :
  exists w',
    ScrapeDrn.get_html_r (lit "u") 3 flaky_html_world = (inl [], w') /\
    ncalls w' = ncalls flaky_html_world + S 1 /\
    trace w' = trace flaky_html_world ++ flat_map (html_fail_block (lit "u")) (seq 0 1) ++
               [EHtml (lit "u")].
Proof.
  apply get_html_first_success; [lia | | reflexivity].
  intros i Hi. assert (i = 0) as -> by lia. reflexivity.
Defined.

Lemma fetch_first_response_witness :
  exists w',
    FetchTalkpages.fetch_wikitext_via_api_r (lit "Talk:A") 3 flaky_api_world = (inl None, w') /\
    ncalls w' = ncalls flaky_api_world + S 2 /\
    trace w' = trace flaky_api_world ++ flat_map (fail_block (lit "Talk:A")) (seq 0 2) ++
               [EApi (lit "Talk:A")].
Proof.
  apply fetch_first_response; [lia | | reflexivity].
  intros i Hi. destruct i as [|[|i]]; [reflexivity | reflexivity | lia].
Defined.

Lemma resolve_miss_outcome_witness :
  exists w',
    FetchTalkpages.resolve [] (lit "Talk:A") flaky_api_world = (inl (None, []), w') /\
    trace w' = trace flaky_api_world ++ [ELog INFO] ++
               flat_map (fail_block (lit "Talk:A")) (seq 0 2) ++ [EApi (lit "Talk:A")] ++
               [ELog WARN].
Proof.
  apply (resolve_miss_outcome [] (lit "Talk:A") 2 flaky_api_world None); [reflexivity | lia | |].
  - intros i Hi. destruct i as [|[|i]]; [reflexivity | reflexivity | lia].
  - reflexivity.
Defined.

Lemma extracted_links_on_base_witness :
  exists r, lit "https://en.wikipedia.org/wiki/Talk:A" = WIKI_BASE ++ 47 :: r.
Proof.
  apply (extracted_links_on_base [Some (lit "/wiki/Talk:A"); Some (lit "/wiki/Main")]).
  vm_compute. left. reflexivity.
Defined.

Lemma urljoin_plain_talk_href_witness :
  urljoin_wiki (TALK_PREFIX ++ lit "Foo_(bar)" ++ anchor_part (Some (lit "Sec/1?a")))
  = WIKI_BASE ++ TALK_PREFIX ++ lit "Foo_(bar)" ++ anchor_part (Some (lit "Sec/1?a")).
Proof.
  apply (urljoin_plain_talk_href (lit "Foo_(bar)") (Some (lit "Sec/1?a"))).
  - apply not_in_check. vm_compute. reflexivity.
  - intros y c E. injection E as <-. revert c. apply not_in_check. vm_compute. reflexivity.
Defined.

Lemma extract_depends_on_href_set_witness :
  extract_talk_links_from_html [Some (lit "/wiki/Talk:B"); Some (lit "/wiki/Talk:A");
                                Some (lit "/wiki/Talk:B")]
  = extract_talk_links_from_html [Some (lit "/wiki/Talk:A"); None; Some (lit "/wiki/Talk:B")].
Proof.
  apply extract_depends_on_href_set. intro h. cbn [hrefs flat_map app]. simpl. tauto.
Defined.

Lemma fetch_talkpages_all_present_witness :
  let urls := [lit "https://en.wikipedia.org/wiki/Talk:A#s1";
               lit "https://en.wikipedia.org/wiki/Talk:B";
               lit "https://en.wikipedia.org/wiki/Talk:A#s2"] in
  exists recs new w',
    FetchTalkpages.main urls all_present_world = (inl recs, w') /\
    trace w' = trace all_present_world ++ new /\
    api_requests new = dedup_first_occurrence (map link_title urls) /\
    sleeps new = repeat SLEEP_SECONDS (length (dedup_first_occurrence (map link_title urls))) /\
    html_requests new = [] /\
    length recs = length urls.
Proof.
  intro urls. apply fetch_talkpages_all_present.
  intros k t. exists (Some t), None. reflexivity.
Defined.
